(** * Multisig wallet client: transaction synchronisation and action gateway

    A shallow embedding of [app/contexts/TransactionsContext.tsx] and of the
    form logic of [app/components/OwnerModal.tsx], followed by the properties
    of the specification that were checked against it.

    Conventions of the embedding:
    - a JavaScript [number] holding an index or an id is a [Z]; the
      authoritative transaction count (a contract [uint]) is a [nat];
    - an array is a [list]; [new Array(len)] refuses a length of [2^32] or
      more, as the language does;
    - an optional field or a possibly [undefined] value is an [option];
    - an [async] function is a computation in the [Promise] monad below: it
      is either fulfilled with a value or rejected with an error, and an
      exception raised in its body rejects it;
    - React state is passed explicitly; an effect is a function from what the
      render closed over to the state update it requests. *)

From Stdlib Require Import ZArith Ascii String DecimalString DecimalNat Lia.
From stdpp Require Import base option list gmap strings.

Local Open Scope string_scope.
Local Open Scope Z_scope.

(** ** The fragment of JavaScript the two modules rely on *)

Module Js.

(** Values, as far as the sources look at them: truthiness, and what is put
    in an argument record. [JObject] stands for any object reference. *)
Inductive Value : Type :=
| JUndefined
| JNull
| JBool (b : bool)
| JNumber (n : Z)
| JString (s : string)
| JObject.

(** [ToBoolean]. *)
Definition truthy (v : Value) : bool :=
  match v with
  | JUndefined | JNull => false
  | JBool b => b
  | JNumber n => negb (n =? 0)
  | JString s => negb (String.eqb s "")
  | JObject => true
  end.

(** [a && b], [a || b] and [!a]: the first two return an operand, not a
    boolean. *)
Definition and_ (a b : Value) : Value := if truthy a then b else a.
Definition or_ (a b : Value) : Value := if truthy a then a else b.
Definition not_ (a : Value) : Value := JBool (negb (truthy a)).

(** An optional object seen as a value: the object, or [undefined]. *)
Definition ofObject {A : Type} (o : option A) : Value :=
  match o with Some _ => JObject | None => JUndefined end.

(** Errors that the modelled code can raise or receive. [CallException] is
    an error coming from the network client (rejected call, revert, failed
    receipt wait). *)
Inductive Error : Type :=
| TypeError (msg : string)
| RangeError (msg : string)
| SyntaxError (msg : string)
| CallException (msg : string).

(** [e.message] *)
Definition message (e : Error) : string :=
  match e with
  | TypeError m | RangeError m | SyntaxError m | CallException m => m
  end.

(** The outcome of a computation that may throw: a promise once settled,
    or a function body run to completion. *)
Inductive Promise (A : Type) : Type :=
| Fulfilled (a : A)
| Rejected (e : Error).
Arguments Fulfilled {A} a.
Arguments Rejected {A} e.

#[export] Instance promise_ret : MRet Promise := @Fulfilled.
#[export] Instance promise_bind : MBind Promise := fun A B k p =>
  match p with
  | Fulfilled a => k a
  | Rejected e => Rejected e
  end.

#[export] Instance promise_fmap : FMap Promise := fun A B f p =>
  match p with
  | Fulfilled a => Fulfilled (f a)
  | Rejected e => Rejected e
  end.

Definition isRejected {A : Type} (p : Promise A) : Prop :=
  match p with Rejected _ => True | Fulfilled _ => False end.

(** [n.toString()] for a non-negative integer: its decimal digits. *)
Definition toString (n : nat) : string :=
  NilZero.string_of_uint (Nat.to_uint n).

(** [parseInt(s)] on strings of decimal digits, which is all the callers
    pass; [None] is [NaN]. *)
Definition parseInt (s : string) : option nat :=
  Nat.of_uint <$> NilZero.uint_of_string s.

(** The lengths [new Array(len)] accepts: integers up to [2^32 - 1]. Any
    other length raises a [RangeError]. *)
Definition validArrayLength (n : nat) : bool := Z.of_nat n <? 2 ^ 32.

(** The property names every plain object inherits from
    [Object.prototype]. *)
Definition objectPrototypeNames : list string :=
  ["constructor"; "__defineGetter__"; "__defineSetter__"; "hasOwnProperty";
   "__lookupGetter__"; "__lookupSetter__"; "isPrototypeOf";
   "propertyIsEnumerable"; "toString"; "valueOf"; "__proto__";
   "toLocaleString"].

(** [String.prototype.toUpperCase] on ASCII text. *)
Definition upperChar (c : ascii) : ascii :=
  let n := nat_of_ascii c in
  if (97 <=? n)%nat && (n <=? 122)%nat then ascii_of_nat (n - 32) else c.

Fixpoint toUpperCase (s : string) : string :=
  match s with
  | EmptyString => EmptyString
  | String c s' => String (upperChar c) (toUpperCase s')
  end.

End Js.

Import Js.

(** ** [contexts/TransactionsContext.tsx] *)

Module TransactionsContext.

Inductive Status : Type := executed | failed | pending.

(** [type Transaction] *)
Record Transaction : Type := mkTransaction {
  id : Z;
  address : string;
  data : option string;
  confirmations : option (list string);
  status : option Status;
}.

(** The object literal [{ id, address }]. *)
Definition placeholder (i : Z) (addr : string) : Transaction :=
  {| id := i; address := addr; data := None; confirmations := None;
     status := None |}.

(** *** The chain binding, as seen through ethers *)

Definition Receipt : Type := string.
Definition Signer : Type := string.

(** A pending transaction handle: [tx.wait()]. *)
Record TransactionResponse : Type := { wait : Promise Receipt }.

(** The write calls of [abi/MultiSigWallet.json], on a contract object
    connected to a signer. *)
Module MultiSigWallet.
Record t : Type := {
  submitTransaction : string -> Z -> string -> Promise TransactionResponse;
  confirmTransaction : Z -> Promise TransactionResponse;
  revokeConfirmation : Z -> Promise TransactionResponse;
}.
End MultiSigWallet.

(** [new Contract(address, multisigAbi)]: [connect(signer)] gives the
    callable contract. *)
Record Contract : Type := {
  contractAddress : string;
  connect : Signer -> MultiSigWallet.t;
}.

(** [Web3Provider] *)
Record Library : Type := { getSigner : Signer }.

Record Connector : Type := { supportedChainIds : option (list Z) }.

(** What the hooks return in one render: [useRouter], [useWeb3React] and
    [useSWR]. *)
Record Hooks : Type := {
  isReady : bool;
  queryAddress : string;  (* query.address *)
  library : option Library;
  chainId : option Z;
  connector : option Connector;
  web3Error : option Error;
  transactionCount : option nat;
  isValidating : bool;
  fetchError : option Error;
}.

Section Provider.

(** [isAddress] of [@ethersproject/address]. *)
Variable isAddress : string -> bool.

(** [Boolean(chainId)] *)
Definition hasChainId (h : Hooks) : bool :=
  match chainId h with
  | Some c => negb (c =? 0)
  | None => false
  end.

Definition canFetch (h : Hooks) : Value :=
  and_ (JBool (isReady h)) (JBool (hasChainId h)).

(** [connector?.supportedChainIds?.includes(chainId)] *)
Definition chainSupported (h : Hooks) : Value :=
  match connector h with
  | None => JUndefined
  | Some c =>
    match supportedChainIds c with
    | None => JUndefined
    | Some ids =>
      JBool (match chainId h with
             | Some c => bool_decide (c ∈ ids)
             | None => false
             end)
    end
  end.

Definition shouldFetch (h : Hooks) : Value :=
  and_ (and_ (and_ (canFetch h) (JBool (isAddress (queryAddress h))))
                 (ofObject (library h)))
         (chainSupported h).

Definition isLoading (h : Hooks) : Value :=
  and_ (and_ (not_ (ofObject (web3Error h)))
                 (not_ (ofObject (fetchError h))))
         (or_ (not_ (canFetch h))
                (and_ (shouldFetch h) (JBool (isValidating h)))).

(** The key passed to [useSWR]:
    [shouldFetch ? [address, 'transactionCount'] : null]. *)
Definition swrKey (h : Hooks) : option (string * string) :=
  if truthy (shouldFetch h) then Some (queryAddress h, "transactionCount")
  else None.

End Provider.

(** *** The local transaction list and its effects *)

(** The argument of [setTransactions]: a new value, or an updater applied to
    the state current at the time of the update. *)
Inductive SetStateAction : Type :=
| SetValue (txs : list Transaction)
| SetUpdater (f : list Transaction -> list Transaction).

Definition applyAction (a : SetStateAction) (txs : list Transaction)
  : list Transaction :=
  match a with
  | SetValue v => v
  | SetUpdater f => f txs
  end.

(** What running an effect body amounts to. *)
Inductive EffectResult : Type :=
| NoUpdate
| Update (a : SetStateAction)
| Throws (e : Error).

(** [new Array(len).fill(null).map((_, id) => ({ id, address }))]; a [NaN]
    length and a length of [2^32] or more raise a [RangeError]. *)
Definition materialize (addr : string) (len : option nat) : EffectResult :=
  match len with
  | None => Throws (RangeError "Invalid array length")
  | Some n =>
    if validArrayLength n then
      Update (SetValue
        (imap (fun i (_ : Value) => placeholder (Z.of_nat i) addr)
              (replicate n JNull)))
    else Throws (RangeError "Invalid array length")
  end.

(** The effect on [[transactionCount]]. [transactions] is the list the render
    closed over; the count is the contract's [uint], whose [toString()] is
    its decimal notation. *)
Definition transactionCountEffect (addr : string) (count : option nat)
    (transactions : list Transaction) : EffectResult :=
  match count with
  | None => NoUpdate
  | Some n =>
    if negb (length transactions =? 0)%nat then
      Update (SetUpdater (fun txs =>
        placeholder (Z.of_nat (length txs)) addr :: txs))
    else materialize addr (parseInt (toString n))
  end.

(** [updateTransactions] *)
Definition updateTransactions (tx : Transaction) : SetStateAction :=
  SetUpdater (fun txs =>
    (fun transaction => if id tx =? id transaction then tx else transaction)
      <$> txs).

(** A call to the bound [mutate] of [useSWR]. *)
Inductive FetcherCall : Type :=
| Mutate (data : option nat) (shouldRevalidate : bool).

(** The state owned by the provider, with the requests it has sent to the
    fetcher, oldest first. *)
Record Engine : Type := {
  transactions : list Transaction;
  fetcherCalls : list FetcherCall;
}.

(** [useState<Transaction[]>([])], nothing requested yet. *)
Definition initial : Engine := {| transactions := []; fetcherCalls := [] |}.

(** What the provider reacts to: the effect on [[chainId]], the effect on
    [[transactionCount]] with the count the fetcher now reports, the
    listener of the contract's [Submission] event, and a call of
    [updateTransactions] by a consumer. *)
Inductive Event : Type :=
| ChainIdChanged
| TransactionCountChanged (count : option nat)
| Submission
| UpdateTransactions (tx : Transaction).

(** [mutate(undefined, true)] *)
Definition mutateUndefined (st : Engine) : Engine :=
  {| transactions := transactions st;
     fetcherCalls := fetcherCalls st ++ [Mutate None true] |}.

(** [setTransactions(a)] *)
Definition setTransactions (a : SetStateAction) (st : Engine) : Engine :=
  {| transactions := applyAction a (transactions st);
     fetcherCalls := fetcherCalls st |}.

(** One reaction of the provider; an effect that throws leaves no next
    state. *)
Definition step (addr : string) (st : Engine) (ev : Event) : Promise Engine :=
  match ev with
  | ChainIdChanged => Fulfilled (mutateUndefined st)
  | Submission => Fulfilled (mutateUndefined st)
  | TransactionCountChanged count =>
    match transactionCountEffect addr count (transactions st) with
    | NoUpdate => Fulfilled st
    | Update a => Fulfilled (setTransactions a st)
    | Throws e => Rejected e
    end
  | UpdateTransactions tx => Fulfilled (setTransactions (updateTransactions tx) st)
  end.

(** The reactions to a sequence of events, in order. *)
Fixpoint run (addr : string) (st : Engine) (evs : list Event) : Promise Engine :=
  match evs with
  | [] => Fulfilled st
  | ev :: evs' => st' ← step addr st ev; run addr st' evs'
  end.

(** *** The [Submission] listener *)

(** The dependencies [[contract, library]] of the subscription effect. React
    compares them by identity, so each object carries one; a contract also
    carries the address its [Submission] filter is built from. *)
Record Deps : Type := {
  depContract : option (nat * string);
  depLibrary : option nat;
}.

#[export] Instance Deps_eq_dec : EqDecision Deps.
Proof. solve_decision. Defined.

(** The listeners held by the provider objects: for a library (by identity)
    and a filter (by the contract address in it), how many callbacks are
    registered. An absent key is no listener. *)
Abbreviation Listeners := (gmap (nat * string) nat).

(** The effect body: [if (!contract || !library) return;] then
    [library.on(submission, ...)]. The second component is what the returned
    clean-up function closes over, when there is one. *)
Definition submissionEffect (d : Deps) (ls : Listeners)
  : Listeners * option (nat * string) :=
  match depContract d, depLibrary d with
  | Some (_, filterAddress), Some lib =>
    let key := (lib, filterAddress) in
    (<[key := S (default 0%nat (ls !! key))]> ls, Some key)
  | _, _ => (ls, None)
  end.

(** The clean-up: [library.removeAllListeners(submission)]. *)
Definition submissionCleanup (c : option (nat * string)) (ls : Listeners)
  : Listeners :=
  match c with
  | Some key => delete key ls
  | None => ls
  end.

(** The effect as React keeps it between renders. *)
Record Subscription : Type := {
  lastDeps : Deps;
  cleanup : option (nat * string);
  listeners : Listeners;
}.

(** First render: the effect runs. *)
Definition mount (d : Deps) (ls : Listeners) : Subscription :=
  let r := submissionEffect d ls in
  {| lastDeps := d; cleanup := r.2; listeners := r.1 |}.

(** A later render: when a dependency has changed, the previous clean-up
    runs and then the effect runs again. *)
Definition rerender (s : Subscription) (d : Deps) : Subscription :=
  if decide (d = lastDeps s) then s
  else mount d (submissionCleanup (cleanup s) (listeners s)).

(** Unmounting runs the last clean-up. *)
Definition unmount (s : Subscription) : Listeners :=
  submissionCleanup (cleanup s) (listeners s).

(** *** The action gateway *)

(** One entry of a parsed JSON ABI and one of its declared parameters, with
    the fields the code reads. *)
Module Input.
Record t : Type := { name : string; type : string }.
End Input.

Module Entry.
Record t : Type := {
  type : string;
  name : option string;
  inputs : option (list Input.t);
}.
End Entry.

(** [destinationContract.interface] *)
Record Interface : Type := {
  encodeFunctionData : string -> option (list Value) -> Promise string;
}.

(** The result of [new Contract(destination, abi)]. *)
Record DestinationContract : Type := {
  destinationAddress : string;
  interface : Interface;
}.

(** The library calls of [addNewTx] whose result depends on the ABI text. *)
Record Runtime : Type := {
  newContract : string -> string -> Promise DestinationContract;
  JSON_parse : string -> Promise (list Entry.t);
}.

(** What the gateway functions close over. *)
Record Gateway : Type := {
  contract : option Contract;
  signerLibrary : option Library;
}.

(** What [useMemo(..., [isReady])] keeps between renders: the dependency it
    last computed for, and the value. *)
Record ContractMemo : Type := {
  memoIsReady : bool;
  memoContract : option Contract;
}.

(** [isReady && isAddress(address) ? new Contract(address, multisigAbi) : null] *)
Definition buildContract (isAddress : string -> bool)
    (deployed : string -> Contract) (h : Hooks) : option Contract :=
  if isReady h && isAddress (queryAddress h)
  then Some (deployed (queryAddress h)) else None.

(** [useMemo(() => ..., [isReady])]: computed in the first render, and again
    only in a render whose [isReady] differs from the one it was last
    computed for; a change of the address alone keeps the old contract. *)
Definition useContract (isAddress : string -> bool)
    (deployed : string -> Contract) (previous : option ContractMemo)
    (h : Hooks) : ContractMemo :=
  match previous with
  | Some memo =>
    if Bool.eqb (memoIsReady memo) (isReady h) then memo
    else {| memoIsReady := isReady h;
            memoContract := buildContract isAddress deployed h |}
  | None => {| memoIsReady := isReady h;
               memoContract := buildContract isAddress deployed h |}
  end.

(** [contract?.connect(library.getSigner())]: nothing is evaluated past a
    null [contract]. *)
Definition connected (g : Gateway) : Promise (option MultiSigWallet.t) :=
  match contract g with
  | None => Fulfilled None
  | Some c =>
    match signerLibrary g with
    | None => Rejected (TypeError "Cannot read property 'getSigner' of undefined")
    | Some lib => Fulfilled (Some (connect c (getSigner lib)))
    end
  end.

(** [await tx.wait()] *)
Definition waitFor (tx : option TransactionResponse) : Promise Receipt :=
  match tx with
  | None => Rejected (TypeError "Cannot read property 'wait' of undefined")
  | Some tx => wait tx
  end.

(** [JSON.parse(abi).filter(...).find(...)] *)
Definition findFunction (entries : list Entry.t) (method : string)
  : option Entry.t :=
  List.find
    (fun entry => match Entry.name entry with
                  | Some n => String.eqb n method
                  | None => false
                  end)
    (List.filter (fun entry => String.eqb (Entry.type entry) "function") entries).

(** [args[input.name]], [args] being a plain object given by its own
    properties: an own property wins; otherwise the name is looked up in the
    prototype, where the names of [Object.prototype] are bound to objects
    (functions, and the prototype itself for [__proto__]); otherwise the
    result is [undefined]. *)
Definition property (args : gmap string Value) (key : string) : Value :=
  match args !! key with
  | Some v => v
  | None => if bool_decide (key ∈ objectPrototypeNames) then JObject
            else JUndefined
  end.

(** [inputs ? inputs.map((input) => args[input.name]) : undefined] *)
Definition callArguments (inputs : option (list Input.t))
    (args : gmap string Value) : option (list Value) :=
  match inputs with
  | Some ins => Some ((fun input => property args (Input.name input)) <$> ins)
  | None => None
  end.

Definition addNewTx (rt : Runtime) (g : Gateway)
    (destination abi method : string) (args : gmap string Value)
  : Promise Receipt :=
  destinationContract ← newContract rt destination abi;
  entries ← JSON_parse rt abi;
  inputs ← match findFunction entries method with
           | Some entry => Fulfilled (Entry.inputs entry)
           | None => Rejected (TypeError "Cannot read property 'inputs' of undefined")
           end;
  tx ← (c ← connected g;
        match c with
        | None => Fulfilled None
        | Some multisig =>
          data ← encodeFunctionData (interface destinationContract) method
                   (callArguments inputs args);
          Some <$> MultiSigWallet.submitTransaction multisig
                     (destinationAddress destinationContract) 0 data
        end);
  waitFor tx.

Definition confirmTx (g : Gateway) (transactionId : Z) : Promise Receipt :=
  tx ← (c ← connected g;
        match c with
        | None => Fulfilled None
        | Some multisig =>
          Some <$> MultiSigWallet.confirmTransaction multisig transactionId
        end);
  waitFor tx.

Definition revokeConfirmation (g : Gateway) (transactionId : Z)
  : Promise Receipt :=
  tx ← (c ← connected g;
        match c with
        | None => Fulfilled None
        | Some multisig =>
          Some <$> MultiSigWallet.revokeConfirmation multisig transactionId
        end);
  waitFor tx.

(** Modelled from the spec: the deployed multisig contract that answers
    [confirmTransaction] and [revokeConfirmation]; the sources import only
    its ABI. The specification fixes one thing about it: with [n] on-chain
    transactions, a call for an id outside [0..n-1] fails as part of the
    network call. What it answers for an existing id is left to [existing]. *)
Definition specMultiSigWallet (n : nat) (existing : MultiSigWallet.t)
  : MultiSigWallet.t :=
  let guarded (call : Z -> Promise TransactionResponse) (transactionId : Z) :=
    if (0 <=? transactionId) && (transactionId <? Z.of_nat n)
    then call transactionId
    else Rejected (CallException "execution reverted") in
  {| MultiSigWallet.submitTransaction := MultiSigWallet.submitTransaction existing;
     MultiSigWallet.confirmTransaction :=
       guarded (MultiSigWallet.confirmTransaction existing);
     MultiSigWallet.revokeConfirmation :=
       guarded (MultiSigWallet.revokeConfirmation existing) |}.

Definition specContract (n : nat) (existing : Contract) : Contract :=
  {| contractAddress := contractAddress existing;
     connect := fun signer => specMultiSigWallet n (connect existing signer) |}.

End TransactionsContext.

(** ** [components/OwnerModal.tsx] *)

Module OwnerModal.

Import TransactionsContext.

(** [interface FormValues]; the field is read with [?.], so it may be
    [undefined]. *)
Record FormValues : Type := { values_newOwnerAddress : option string }.

(** [interface FormErrors] *)
Record FormErrors : Type := { newOwnerAddress : option string }.

Inductive AddOrReplace : Type := add | replace.

(** [newOwnerAddress?.length], as a condition. *)
Definition hasLength (s : option string) : bool :=
  match s with
  | Some s => negb (String.length s =? 0)%nat
  | None => false
  end.

Section Form.

Variable isAddress : string -> bool.
Variable owners : list string.

(** The [validate] callback of the form. In the [else if] branch
    [newOwnerAddress] has a length, hence is a string. *)
Definition validate (values : FormValues) : FormErrors :=
  let candidate := values_newOwnerAddress values in
  if hasLength candidate && negb (isAddress (default "" candidate)) then
    {| newOwnerAddress := Some "Please enter a valid address" |}
  else if hasLength candidate &&
          existsb (fun owner =>
                     String.eqb (toUpperCase owner)
                                (toUpperCase (default "" candidate)))
                  owners then
    {| newOwnerAddress := Some "This address is already an owner" |}
  else {| newOwnerAddress := None |}.

End Form.

(** [Object.keys(errors).length] *)
Definition errorCount (errors : FormErrors) : nat :=
  match newOwnerAddress errors with Some _ => 1 | None => 0 end.

(** [canSubmit]; reading [length] of [undefined] throws. *)
Definition canSubmit (values : FormValues) (errors : FormErrors)
  : Promise Value :=
  match values_newOwnerAddress values with
  | None => Rejected (TypeError "Cannot read property 'length' of undefined")
  | Some s =>
    let hasValues := JNumber (Z.of_nat (String.length s)) in
    let hasErrors := negb (errorCount errors =? 0)%nat in
    Fulfilled (and_ hasValues (not_ (JBool hasErrors)))
  end.

(** What [sendTx] resolves to: the receipt, or [{ [FORM_ERROR]: message }]. *)
Inductive SubmitResult : Type :=
| Submitted (receipt : Receipt)
| FormError (msg : string).

(** What the modal closes over. *)
Record Modal : Type := {
  modalLibrary : option Library;
  modalContract : Contract;
  encode : string -> list Value -> Promise string;
  addOrReplace : AddOrReplace;
  ownerToBeReplaced : option string;
}.

(** [contract.connect(library.getSigner()).submitTransaction(contract.address, 0, data)]
    followed by [tx.wait()]. *)
Definition submitEncoded (m : Modal) (method : string) (params : list Value)
  : Promise Receipt :=
  match modalLibrary m with
  | None => Rejected (TypeError "Cannot read property 'getSigner' of undefined")
  | Some lib =>
    let multisig := connect (modalContract m) (getSigner lib) in
    data ← encode m method params;
    tx ← MultiSigWallet.submitTransaction multisig
           (contractAddress (modalContract m)) 0 data;
    wait tx
  end.

Definition addOwner (m : Modal) (owner : Value) : Promise Receipt :=
  submitEncoded m "addOwner" [owner].

Definition replaceOwner (m : Modal) (owner newOwner : Value) : Promise Receipt :=
  submitEncoded m "replaceOwner" [owner; newOwner].

(** A possibly missing string, as a value. *)
Definition ofString (s : option string) : Value :=
  match s with Some s => JString s | None => JUndefined end.

(** The value of the prop [addOrReplace: 'add' | 'replace']. *)
Definition modeString (mode : AddOrReplace) : string :=
  match mode with add => "add" | replace => "replace" end.

(** [if (addOrReplace === 'replace' && !addOrReplace.length) return null;] *)
Definition returnsNull (m : Modal) : bool :=
  String.eqb (modeString (addOrReplace m)) "replace"
  && (String.length (modeString (addOrReplace m)) =? 0)%nat.

(** The call awaited inside the [try] block of [sendTx]. *)
Definition ownerCall (m : Modal) (values : FormValues) : Promise Receipt :=
  let newOwnerAddress := ofString (values_newOwnerAddress values) in
  match addOrReplace m with
  | add => addOwner m newOwnerAddress
  | replace => replaceOwner m (ofString (ownerToBeReplaced m)) newOwnerAddress
  end.

(** [sendTx]: [try { receipt = await ...; clearModal(); return receipt }
    catch (e) { return { [FORM_ERROR]: e.message } }]. The boolean tells
    whether [clearModal()] was called. *)
Definition sendTx (m : Modal) (values : FormValues)
  : bool * Promise SubmitResult :=
  match ownerCall m values with
  | Fulfilled receipt => (true, Fulfilled (Submitted receipt))
  | Rejected e => (false, Fulfilled (FormError (message e)))
  end.

End OwnerModal.

Import TransactionsContext.

(** ** Vocabulary of the properties *)

(** The list built by the empty-list branch of the count effect. *)
Definition placeholders (addr : string) (n : nat) : list Transaction :=
  (fun i => placeholder (Z.of_nat i) addr) <$> seq 0 n.

(** The ids of a list are those of a dense array: a rearrangement of
    [0 .. length - 1]. *)
Definition dense (txs : list Transaction) : Prop :=
  id <$> txs ≡ₚ Z.of_nat <$> seq 0 (length txs).

(** The network interaction started by [call] fails with [e]: the call is
    rejected, or it goes through and the wait for its receipt is rejected. *)
Definition callFails (call : Promise TransactionResponse) (e : Error) : Prop :=
  call = Rejected e \/ exists tx, call = Fulfilled tx /\ wait tx = Rejected e.

(** [entry] is a function entry of the ABI named [method]. *)
Definition isFunctionNamed (method : string) (entry : Entry.t) : Prop :=
  Entry.type entry = "function" /\ Entry.name entry = Some method.

(** The events that ask the fetcher to revalidate. *)
Definition isRevalidation (ev : Event) : bool :=
  match ev with
  | ChainIdChanged | Submission => true
  | _ => false
  end.

(** The events that are not a call of [updateTransactions]. *)
Definition isUpdate (ev : Event) : bool :=
  match ev with
  | UpdateTransactions _ => true
  | _ => false
  end.

(** [updateTransactions(tx)] applied to a list. *)
Definition updated (tx : Transaction) (txs : list Transaction)
  : list Transaction :=
  applyAction (updateTransactions tx) txs.

(** Some owner equals the candidate once both are upper-cased. *)
Definition alreadyOwner (owners : list string) (candidate : string) : Prop :=
  exists owner, owner ∈ owners /\ toUpperCase owner = toUpperCase candidate.

(** The method and parameters [sendTx] encodes, by mode. *)
Definition ownerMethod (m : OwnerModal.Modal) : string :=
  match OwnerModal.addOrReplace m with
  | OwnerModal.add => "addOwner"
  | OwnerModal.replace => "replaceOwner"
  end.

Definition ownerParams (m : OwnerModal.Modal) (values : OwnerModal.FormValues)
  : list Value :=
  let newOwner := OwnerModal.ofString (OwnerModal.values_newOwnerAddress values) in
  match OwnerModal.addOrReplace m with
  | OwnerModal.add => [newOwner]
  | OwnerModal.replace =>
      [OwnerModal.ofString (OwnerModal.ownerToBeReplaced m); newOwner]
  end.


(** The runs of the effect on [[transactionCount]] over successive renders
    that report the values [counts], after a render that reported
    [previous]: React runs the effect again only in a render whose value
    differs from the one before. *)
Fixpoint countEffectRuns (previous : option nat) (counts : list (option nat))
  : list Event :=
  match counts with
  | [] => []
  | count :: rest =>
    if decide (count = previous) then countEffectRuns previous rest
    else TransactionCountChanged count :: countEffectRuns count rest
  end.


(** No count among the events is too large for an array. *)
Definition countFits (ev : Event) : bool :=
  match ev with
  | TransactionCountChanged (Some n) => validArrayLength n
  | _ => true
  end.

(** The hook results [h] belong to a render in which [useSWR] is serving the
    last request of [calls]: after [mutate(_, true)] it is validating
    whenever it has a key. This is the behaviour assumed of the library. *)
Definition serving (isAddress : string -> bool) (calls : list FetcherCall)
    (h : Hooks) : Prop :=
  match last calls with
  | Some (Mutate _ true) =>
      isValidating h = bool_decide (is_Some (swrKey isAddress h))
  | _ => True
  end.

(** The subscription after a first render with dependencies [d] and the
    later renders [ds], on provider objects that had no [Submission]
    listener before. *)
Definition subscriptionAfter (d : Deps) (ds : list Deps) : Subscription :=
  fold_left rerender ds (mount d ∅).

(** The listener the effect holds for given dependencies. *)
Definition subscribedTo (d : Deps) : option (nat * string) :=
  match depContract d, depLibrary d with
  | Some (_, filterAddress), Some lib => Some (lib, filterAddress)
  | _, _ => None
  end.

(** ** Fixtures of the examples *)

(** Three chain bindings: one that accepts every call, one that reverts
    every call, one whose receipts never arrive. *)
Definition walletAnswering (answer : Promise TransactionResponse)
  : MultiSigWallet.t :=
  {| MultiSigWallet.submitTransaction := fun _ _ _ => answer;
     MultiSigWallet.confirmTransaction := fun _ => answer;
     MultiSigWallet.revokeConfirmation := fun _ => answer |}.

Definition acceptingWallet : MultiSigWallet.t :=
  walletAnswering (Fulfilled {| wait := Fulfilled "receipt" |}).

Definition revertingWallet : MultiSigWallet.t :=
  walletAnswering (Rejected (CallException "execution reverted")).

Definition droppingWallet : MultiSigWallet.t :=
  walletAnswering (Fulfilled {| wait := Rejected (CallException "timeout") |}).

Definition contractOf (w : MultiSigWallet.t) : Contract :=
  {| contractAddress := "0xW"; connect := fun _ => w |}.

Definition gatewayOf (w : MultiSigWallet.t) : Gateway :=
  {| contract := Some (contractOf w);
     signerLibrary := Some {| getSigner := "0xSigner" |} |}.

(** A token ABI: an event, then [transfer(to, amount)]. *)
Definition transferEvent : Entry.t :=
  {| Entry.type := "event"; Entry.name := Some "transfer"; Entry.inputs := Some [] |}.

Definition transferFunction : Entry.t :=
  {| Entry.type := "function"; Entry.name := Some "transfer";
     Entry.inputs := Some [ {| Input.name := "to"; Input.type := "address" |};
                            {| Input.name := "amount"; Input.type := "uint256" |} ] |}.

Definition tokenAbi : list Entry.t := [transferEvent; transferFunction].

(** An encoder that answers ["0xdata"], and a parser that reads the token
    ABI. *)
Definition tokenRuntime : Runtime :=
  {| newContract := fun destination _ =>
       Fulfilled {| destinationAddress := destination;
                    interface := {| encodeFunctionData := fun _ _ => Fulfilled "0xdata" |} |};
     JSON_parse := fun _ => Fulfilled tokenAbi |}.

(** The textual shape [isAddress] accepts: forty hexadecimal digits, with or
    without a leading [0x] (its checksum test on mixed-case input is left
    out). It stands for [isAddress] in the examples. *)
Definition isHexDigit (c : ascii) : bool :=
  let n := nat_of_ascii c in
  ((48 <=? n) && (n <=? 57) || (65 <=? n) && (n <=? 70)
   || (97 <=? n) && (n <=? 102))%nat.

Fixpoint allHex (s : string) : bool :=
  match s with
  | EmptyString => true
  | String c s' => isHexDigit c && allHex s'
  end.

Definition addressFormat (s : string) : bool :=
  let digits := match s with
                | String "0" (String "x" rest) => rest
                | _ => s
                end in
  (String.length digits =? 40)%nat && allHex digits.

(** The render that follows a switch to a chain the connector does not
    support: no chain id, no library, and the connection error. *)
Definition unsupportedChainRender : Hooks :=
  {| isReady := true; queryAddress := "0xW"; library := None;
     chainId := None; connector := Some {| supportedChainIds := Some [10; 69] |};
     web3Error := Some (CallException "Unsupported chain id: 5.");
     transactionCount := Some 2%nat; isValidating := false;
     fetchError := None |}.

(** An ABI whose only function has a parameter named [valueOf], a chain
    binding whose receipt is the call data, and an encoder that answers with
    the kind of its first argument. *)
Definition valueOfFunction : Entry.t :=
  {| Entry.type := "function"; Entry.name := Some "f";
     Entry.inputs := Some [ {| Input.name := "valueOf"; Input.type := "uint256" |} ] |}.

Definition kindOf (v : Value) : string :=
  match v with
  | JUndefined => "undefined"
  | JNull => "null"
  | JBool _ => "boolean"
  | JNumber _ => "number"
  | JString _ => "string"
  | JObject => "object"
  end.

Definition echoingWallet : MultiSigWallet.t :=
  {| MultiSigWallet.submitTransaction := fun _ _ callData =>
       Fulfilled {| wait := Fulfilled callData |};
     MultiSigWallet.confirmTransaction := fun _ =>
       Fulfilled {| wait := Fulfilled "receipt" |};
     MultiSigWallet.revokeConfirmation := fun _ =>
       Fulfilled {| wait := Fulfilled "receipt" |} |}.

Definition kindRuntime : Runtime :=
  {| newContract := fun destination _ =>
       Fulfilled {| destinationAddress := destination;
                    interface := {| encodeFunctionData := fun _ slots =>
                      Fulfilled (match slots with
                                 | Some (v :: _) => kindOf v
                                 | _ => ""
                                 end) |} |};
     JSON_parse := fun _ => Fulfilled [valueOfFunction] |}.

Definition someOwners : list string :=
  ["0x52908400098527886E0F7030069857D2E4169EE7";
   "0xde709f2102306220921060314715629080e2fb77"].

(** * Properties *)

(** ** JavaScript helpers *)

Lemma to_uint_not_Nil (n : nat) : Nat.to_uint n <> Decimal.Nil.
Proof.
  intros H. pose proof (DecimalNat.Unsigned.to_of (Nat.to_uint n)) as Hn.
  rewrite DecimalNat.Unsigned.of_to in Hn. rewrite H in Hn at 2.
  rewrite H in Hn. discriminate Hn.
Qed.

(** Printing a count and parsing it back gives the count. *)
Lemma parseInt_toString (n : nat) : parseInt (toString n) = Some n.
Proof.
  unfold parseInt, toString.
  rewrite NilZero.usu by apply to_uint_not_Nil.
  simpl. f_equal. apply DecimalNat.Unsigned.of_to.
Qed.

Lemma bind_Fulfilled {A B : Type} (k : A -> Promise B) (a : A) :
  (Fulfilled a ≫= k) = k a.
Proof. reflexivity. Qed.

Lemma bind_Rejected {A B : Type} (k : A -> Promise B) (e : Error) :
  (Rejected e ≫= k) = Rejected e.
Proof. reflexivity. Qed.

(** ** The local transaction list *)

Section SyncEngine.

Variable addr : string.

Lemma materialize_Some (n : nat) :
  validArrayLength n = true ->
  materialize addr (Some n) = Update (SetValue (placeholders addr n)).
Proof.
  intros Hfit. unfold materialize, placeholders. rewrite Hfit. do 2 f_equal.
  rewrite (imap_seq_0 (replicate n JNull) (fun i => placeholder (Z.of_nat i) addr)).
  by rewrite length_replicate.
Qed.

Lemma materialize_too_large (n : nat) :
  validArrayLength n = false ->
  materialize addr (Some n) = Throws (RangeError "Invalid array length").
Proof. intros Hbig. unfold materialize. by rewrite Hbig. Qed.

Lemma transactionCountEffect_on_nil (n : nat) :
  transactionCountEffect addr (Some n) [] = materialize addr (Some n).
Proof.
  unfold transactionCountEffect. cbn [length Nat.eqb negb].
  by rewrite parseInt_toString.
Qed.

Lemma transactionCountEffect_empty (n : nat) :
  validArrayLength n = true ->
  transactionCountEffect addr (Some n) [] = Update (SetValue (placeholders addr n)).
Proof.
  intros Hfit. rewrite transactionCountEffect_on_nil. by apply materialize_Some.
Qed.

Lemma transactionCountEffect_too_large (n : nat) :
  validArrayLength n = false ->
  transactionCountEffect addr (Some n) []
  = Throws (RangeError "Invalid array length").
Proof.
  intros Hbig. rewrite transactionCountEffect_on_nil.
  by apply materialize_too_large.
Qed.

Lemma step_count_on_empty (n : nat) (st : Engine) :
  transactions st = [] ->
  validArrayLength n = true ->
  step addr st (TransactionCountChanged (Some n))
  = Fulfilled {| transactions := placeholders addr n;
                 fetcherCalls := fetcherCalls st |}.
Proof.
  intros Hempty Hfit. unfold step.
  by rewrite Hempty, (transactionCountEffect_empty n Hfit).
Qed.

Lemma step_count_too_large (n : nat) (st : Engine) :
  transactions st = [] ->
  validArrayLength n = false ->
  step addr st (TransactionCountChanged (Some n))
  = Rejected (RangeError "Invalid array length").
Proof.
  intros Hempty Hbig. unfold step.
  by rewrite Hempty, (transactionCountEffect_too_large n Hbig).
Qed.

Lemma step_count_on_nonempty (n : nat) (st : Engine) :
  transactions st <> [] ->
  step addr st (TransactionCountChanged (Some n))
  = Fulfilled {| transactions :=
                   placeholder (Z.of_nat (length (transactions st))) addr
                   :: transactions st;
                 fetcherCalls := fetcherCalls st |}.
Proof.
  intros Hne. unfold step.
  destruct (transactions st) as [|t txs] eqn:E; [done|].
  cbn. unfold setTransactions. cbn [applyAction]. by rewrite E.
Qed.

(** The only reaction that throws is a count of [2^32] or more resolving on
    an empty list. *)
Lemma step_Rejected_iff (st : Engine) (ev : Event) (e : Error) :
  step addr st ev = Rejected e <->
  exists n, ev = TransactionCountChanged (Some n)
            /\ transactions st = []
            /\ validArrayLength n = false
            /\ e = RangeError "Invalid array length".
Proof.
  split.
  - destruct ev as [| [n|] | | tx]; try done.
    destruct (transactions st) as [|t txs] eqn:E.
    + destruct (validArrayLength n) eqn:Hv.
      * by rewrite (step_count_on_empty n st E Hv).
      * rewrite (step_count_too_large n st E Hv). intros [= <-]. by exists n.
    + rewrite step_count_on_nonempty; [done|]. by rewrite E.
  - intros (n & -> & Hempty & Hbig & ->). by apply step_count_too_large.
Qed.

Lemma step_fits (st : Engine) (ev : Event) :
  countFits ev = true -> exists st', step addr st ev = Fulfilled st'.
Proof.
  intros Hfit. destruct (step addr st ev) as [st'|e] eqn:Hs; [by eauto|].
  apply step_Rejected_iff in Hs. destruct Hs as (n & -> & _ & Hbig & _).
  simpl in Hfit. congruence.
Qed.

Lemma run_cons (st st' : Engine) (ev : Event) (evs : list Event) :
  run addr st (ev :: evs) = Fulfilled st' <->
  exists st1, step addr st ev = Fulfilled st1 /\ run addr st1 evs = Fulfilled st'.
Proof.
  cbn [run]. split.
  - destruct (step addr st ev) as [st1|e]; [|done].
    rewrite bind_Fulfilled. by exists st1.
  - by intros (st1 & -> & Hrun).
Qed.

Lemma run_fits (evs : list Event) (st : Engine) :
  forallb countFits evs = true -> exists st', run addr st evs = Fulfilled st'.
Proof.
  revert st. induction evs as [|ev evs IH]; intros st Hfit; [by eexists|].
  apply andb_true_iff in Hfit. destruct Hfit as [Hev Hevs].
  destruct (step_fits st ev Hev) as [st1 H1].
  destruct (IH st1 Hevs) as [st' Hrun]. exists st'.
  apply run_cons. by exists st1.
Qed.

Lemma transactionCountEffect_nonempty (n : nat) (t : Transaction)
    (txs : list Transaction) :
  exists f, transactionCountEffect addr (Some n) (t :: txs) = Update (SetUpdater f)
    /\ forall l, f l = placeholder (Z.of_nat (length l)) addr :: l.
Proof. eexists. split; [reflexivity|]. done. Qed.

Lemma length_placeholders (n : nat) : length (placeholders addr n) = n.
Proof. unfold placeholders. by rewrite length_fmap, length_seq. Qed.

Lemma ids_placeholders (n : nat) : id <$> placeholders addr n = Z.of_nat <$> seq 0 n.
Proof.
  unfold placeholders. rewrite <- list_fmap_compose. by apply list_fmap_ext.
Qed.

Lemma dense_nil : dense [].
Proof. unfold dense. done. Qed.

Lemma dense_placeholders (n : nat) : dense (placeholders addr n).
Proof. unfold dense. by rewrite length_placeholders, ids_placeholders. Qed.

Lemma dense_prepend (txs : list Transaction) :
  dense txs -> dense (placeholder (Z.of_nat (length txs)) addr :: txs).
Proof.
  unfold dense. intros H.
  rewrite fmap_cons, length_cons, seq_S, fmap_app. simpl.
  rewrite <- Permutation_cons_append. by constructor.
Qed.

Lemma ids_update (tx : Transaction) (txs : list Transaction) :
  id <$> applyAction (updateTransactions tx) txs = id <$> txs.
Proof.
  simpl. rewrite <- list_fmap_compose. apply list_fmap_ext.
  intros _ t _. simpl. destruct (id tx =? id t) eqn:E; [|done].
  by apply Z.eqb_eq in E.
Qed.

Lemma dense_update (tx : Transaction) (txs : list Transaction) :
  dense txs -> dense (applyAction (updateTransactions tx) txs).
Proof.
  unfold dense. rewrite ids_update. simpl. by rewrite length_fmap.
Qed.

Lemma dense_NoDup (txs : list Transaction) : dense txs -> NoDup (id <$> txs).
Proof.
  unfold dense. intros ->. apply NoDup_fmap_2; [|apply NoDup_seq].
  intros x y. lia.
Qed.

Lemma dense_elem_of (txs : list Transaction) (i : Z) :
  dense txs -> i ∈ id <$> txs <-> 0 <= i < Z.of_nat (length txs).
Proof.
  unfold dense. intros ->. rewrite list_elem_of_fmap. split.
  - intros (k & -> & Hk). apply elem_of_seq in Hk. lia.
  - intros Hi. exists (Z.to_nat i). split; [lia|]. apply elem_of_seq. lia.
Qed.

Lemma step_dense (st st' : Engine) (ev : Event) :
  dense (transactions st) ->
  step addr st ev = Fulfilled st' ->
  dense (transactions st').
Proof.
  intros Hd. destruct ev as [| [n|] | | tx].
  - by intros [= <-].
  - destruct (transactions st) as [|t txs] eqn:E.
    + destruct (validArrayLength n) eqn:Hv.
      * rewrite (step_count_on_empty n st E Hv). intros [= <-].
        apply dense_placeholders.
      * by rewrite (step_count_too_large n st E Hv).
    + rewrite step_count_on_nonempty by (by rewrite E). intros [= <-].
      cbn [transactions]. rewrite E. by apply (dense_prepend (t :: txs)).
  - by intros [= <-].
  - by intros [= <-].
  - intros [= <-]. by apply dense_update.
Qed.

Lemma run_dense (evs : list Event) (st st' : Engine) :
  dense (transactions st) ->
  run addr st evs = Fulfilled st' ->
  dense (transactions st').
Proof.
  revert st. induction evs as [|ev evs IH]; intros st Hd.
  - by intros [= <-].
  - intros (st1 & H1 & Hrun)%run_cons.
    apply (IH st1); [|done]. by apply (step_dense st st1 ev).
Qed.

End SyncEngine.

(** C1 (as the code has it). When a count [n] below [2^32] resolves while
    the local list is empty, the provider's list becomes exactly [n]
    transactions whose ids are [0, 1, ..., n-1] in that order, each with the
    wallet address and with [data], [confirmations] and [status] absent. *)
Theorem count_resolved_empty_list (addr : string) (n : nat) (st : Engine) :
  transactions st = [] ->
  Z.of_nat n < 2 ^ 32 ->
  exists st',
    step addr st (TransactionCountChanged (Some n)) = Fulfilled st'
    /\ length (transactions st') = n
    /\ transactions st' =
         (fun i : nat =>
            {| id := Z.of_nat i; address := addr; data := None;
               confirmations := None; status := None |}) <$> seq 0 n
    /\ fetcherCalls st' = fetcherCalls st.
Proof.
  intros Hempty Hfit.
  rewrite (step_count_on_empty addr n st Hempty) by by apply Z.ltb_lt.
  eexists. split; [reflexivity|]. simpl.
  split; [apply length_placeholders|]. split; reflexivity.
Qed.

(** C1 at a count of 3 on the freshly mounted provider. *)
Lemma count_resolved_empty_list_witness :
  transactions initial = []
  /\ Z.of_nat 3 < 2 ^ 32
  /\ exists st',
       step "0xW" initial (TransactionCountChanged (Some 3%nat)) = Fulfilled st'
       /\ length (transactions st') = 3%nat
       /\ transactions st' =
            (fun i : nat =>
               {| id := Z.of_nat i; address := "0xW"; data := None;
                  confirmations := None; status := None |}) <$> seq 0 3
       /\ fetcherCalls st' = fetcherCalls initial.
Proof.
  split; [reflexivity|]. split; [reflexivity|].
  apply (count_resolved_empty_list "0xW" 3 initial); reflexivity.
Defined.

(** C1, as stated, fails: when a count of [2^32] resolves on the empty list
    of the freshly mounted provider, [new Array] throws a [RangeError] and no
    list is built. *)
Lemma count_too_large_for_an_array :
  step "0xW" initial (TransactionCountChanged (Some (Z.to_nat 4294967296)))
  = Rejected (RangeError "Invalid array length").
Proof.
  apply step_count_too_large; [reflexivity|].
  unfold validArrayLength. apply Z.ltb_ge. rewrite Z2Nat.id; lia.
Qed.

(** C2. When a count resolves while the local list is non-empty, of length
    [L], exactly one placeholder with id [L] and the wallet address is put
    in front of the list and the existing entries follow it unchanged,
    whatever the resolved count is. *)
Theorem count_resolved_nonempty_list (addr : string) (n : nat) (st : Engine) :
  transactions st <> [] ->
  exists st',
    step addr st (TransactionCountChanged (Some n)) = Fulfilled st'
    /\ transactions st' =
         {| id := Z.of_nat (length (transactions st)); address := addr;
            data := None; confirmations := None; status := None |}
         :: transactions st
    /\ length (transactions st') = S (length (transactions st))
    /\ fetcherCalls st' = fetcherCalls st.
Proof.
  intros Hne. unfold step.
  destruct (transactions st) as [|t txs] eqn:E; [done|].
  eexists. split; [reflexivity|]. simpl. rewrite E. done.
Qed.

(** C2 at a list of three entries when a count of 9 resolves. *)
Lemma count_resolved_nonempty_list_witness :
  let st := {| transactions := placeholders "0xW" 3; fetcherCalls := [] |} in
  transactions st <> []
  /\ exists st',
       step "0xW" st (TransactionCountChanged (Some 9%nat)) = Fulfilled st'
       /\ transactions st' =
            {| id := Z.of_nat (length (transactions st)); address := "0xW";
               data := None; confirmations := None; status := None |}
            :: transactions st
       /\ length (transactions st') = S (length (transactions st))
       /\ fetcherCalls st' = fetcherCalls st.
Proof.
  split; [discriminate|].
  apply (count_resolved_nonempty_list "0xW" 9
           {| transactions := placeholders "0xW" 3; fetcherCalls := [] |}).
  discriminate.
Defined.

(** C3. [updateTransactions(tx)] leaves the list as it is when no entry has
    the id of [tx]; in general it keeps the length, puts [tx] at every
    position whose entry has the id of [tx] and keeps every other position;
    applying it twice gives the same list as applying it once. *)
Theorem updateTransactions_by_id (tx : Transaction) (txs : list Transaction) :
  let update := applyAction (updateTransactions tx) in
  ((forall t, t ∈ txs -> id t <> id tx) -> update txs = txs)
  /\ length (update txs) = length txs
  /\ (forall (i : nat) (t : Transaction), txs !! i = Some t ->
        update txs !! i = Some (if decide (id t = id tx) then tx else t))
  /\ update (update txs) = update txs.
Proof.
  simpl. repeat split.
  - intros Hno. induction txs as [|t txs IH]; [done|].
    rewrite fmap_cons. rewrite IH.
    + destruct (id tx =? id t) eqn:E; [|done].
      apply Z.eqb_eq in E. exfalso. apply (Hno t); [left|done].
    + intros t' Ht'. apply Hno. by right.
  - apply length_fmap.
  - intros i t Hi. rewrite list_lookup_fmap, Hi. simpl. f_equal.
    destruct (id tx =? id t) eqn:E.
    + apply Z.eqb_eq in E. by rewrite decide_True.
    + apply Z.eqb_neq in E. by rewrite decide_False.
  - rewrite <- list_fmap_compose. apply list_fmap_ext.
    intros _ t _. simpl. destruct (id tx =? id t) eqn:E; [|by rewrite E].
    by rewrite Z.eqb_refl.
Qed.

(** C10. After any sequence of events the provider has reacted to since it
    was mounted (counts resolving, which materialise or prepend, and updates
    by id), the ids of its list are exactly [0 .. length - 1]: they are
    pairwise distinct, an integer is an id of the list exactly when it lies
    in that range, and the id the next prepend would assign is not in the
    list. Every sequence whose counts fit an array is reacted to in full. *)
Theorem ids_dense_after_any_events (addr : string) (evs : list Event) :
  (forallb countFits evs = true ->
   exists st, run addr initial evs = Fulfilled st)
  /\ (forall st,
        run addr initial evs = Fulfilled st ->
        NoDup (id <$> transactions st)
        /\ (forall i : Z,
              i ∈ id <$> transactions st
              <-> 0 <= i < Z.of_nat (length (transactions st)))
        /\ Z.of_nat (length (transactions st)) ∉ id <$> transactions st).
Proof.
  split; [apply run_fits|]. intros st Hrun.
  pose proof (run_dense addr evs initial st dense_nil Hrun) as Hd.
  split; [by apply dense_NoDup|].
  split; [intros i; by apply dense_elem_of|].
  rewrite dense_elem_of by done. lia.
Qed.

(** ** The loading flag *)

Lemma truthy_and (a b : Value) : truthy (and_ a b) = truthy a && truthy b.
Proof. unfold and_. destruct (truthy a) eqn:E; [done|]. by rewrite E. Qed.

Lemma truthy_or (a b : Value) : truthy (or_ a b) = truthy a || truthy b.
Proof. unfold or_. destruct (truthy a) eqn:E; [|done]. by rewrite E. Qed.

Lemma truthy_not (a : Value) : truthy (not_ a) = negb (truthy a).
Proof. reflexivity. Qed.

(** C9. Whenever a web3 connection error or a fetch error is present,
    [isLoading] is [false], whatever the other hook results are. *)
Theorem error_short_circuits_loading (isAddress : string -> bool) (h : Hooks) :
  is_Some (web3Error h) \/ is_Some (fetchError h) ->
  isLoading isAddress h = JBool false.
Proof.
  unfold isLoading. intros [[e He] | [e He]]; rewrite He.
  - reflexivity.
  - destruct (web3Error h); reflexivity.
Qed.

(** C9 at a render that is validating while the last fetch has failed. *)
Lemma error_short_circuits_loading_witness :
  let h := {| isReady := true; queryAddress := "0xW";
              library := Some {| getSigner := "0xSigner" |};
              chainId := Some 10;
              connector := Some {| supportedChainIds := Some [10; 69] |};
              web3Error := None; transactionCount := None;
              isValidating := true;
              fetchError := Some (CallException "call revert exception") |} in
  (is_Some (web3Error h) \/ is_Some (fetchError h))
  /\ isLoading (fun _ => true) h = JBool false.
Proof.
  cbv zeta. split.
  - right. eexists. reflexivity.
  - apply (error_short_circuits_loading (fun _ => true)).
    right. eexists. reflexivity.
Defined.

Lemma serving_after_mutate (isAddress : string -> bool)
    (calls : list FetcherCall) (h : Hooks) :
  serving isAddress (calls ++ [Mutate None true]) h ->
  isValidating h = truthy (shouldFetch isAddress h).
Proof.
  unfold serving, swrKey. rewrite last_snoc. intros ->.
  destruct (truthy (shouldFetch isAddress h)).
  - apply bool_decide_eq_true. by eexists.
  - apply bool_decide_eq_false. by intros [? ?].
Qed.

(** C4 (as the code has it). A change of [chainId] requests a forced
    revalidation from the fetcher, [mutate(undefined, true)], and does not
    touch the local list: the transactions held before are all still there.
    In a render in which that revalidation is being served, the provider
    reports loading unless a web3 or fetch error is present or fetching is
    disabled, that is, the router is ready with a chain id but there is no
    fetch key. *)
Theorem chainId_change_revalidates_and_keeps_list
    (isAddress : string -> bool) (addr : string) (st : Engine) (h : Hooks) :
  exists st',
    step addr st ChainIdChanged = Fulfilled st'
    /\ transactions st' = transactions st
    /\ fetcherCalls st' = (fetcherCalls st ++ [Mutate None true])%list
    /\ (serving isAddress (fetcherCalls st') h ->
        (truthy (isLoading isAddress h) = true <->
         web3Error h = None /\ fetchError h = None
         /\ (truthy (canFetch h) = false
             \/ truthy (shouldFetch isAddress h) = true))).
Proof.
  exists (mutateUndefined st). split; [reflexivity|]. split; [reflexivity|].
  split; [reflexivity|]. cbn [mutateUndefined fetcherCalls].
  intros Hv%serving_after_mutate.
  unfold isLoading. rewrite !truthy_and, truthy_or, !truthy_not, truthy_and.
  cbn [truthy]. rewrite Hv.
  destruct (web3Error h), (fetchError h); simpl;
    destruct (truthy (canFetch h)), (truthy (shouldFetch isAddress h));
    simpl; intuition congruence.
Qed.

(** C4, as stated, fails twice. After a change of [chainId] a list of two
    transactions is still that list, and the count that resolves next adds a
    third entry in front of the two old ones instead of rebuilding the list.
    And when the change is to a chain the connector does not support, the
    render that follows carries a web3 error and does not report loading. *)
Lemma chainId_change_does_not_discard :
  let st := {| transactions := placeholders "0xW" 2; fetcherCalls := [] |} in
  step "0xW" st ChainIdChanged
    = Fulfilled {| transactions := placeholders "0xW" 2;
                   fetcherCalls := [Mutate None true] |}
  /\ placeholders "0xW" 2 <> []
  /\ transactions <$>
       run "0xW" st [ChainIdChanged; TransactionCountChanged None;
                     TransactionCountChanged (Some 5%nat)]
     = Fulfilled [placeholder 2 "0xW"; placeholder 0 "0xW"; placeholder 1 "0xW"]
  /\ serving addressFormat [Mutate None true] unsupportedChainRender
  /\ isLoading addressFormat unsupportedChainRender = JBool false.
Proof.
  cbv zeta. split; [reflexivity|]. split; [discriminate|].
  split; [reflexivity|]. split; reflexivity.
Qed.

(** ** The action gateway *)

Section GatewayFailures.

Variables (g : Gateway) (c : Contract) (lib : Library).
Hypothesis Hcontract : contract g = Some c.
Hypothesis Hlibrary : signerLibrary g = Some lib.

Lemma connected_Some : connected g = Fulfilled (Some (connect c (getSigner lib))).
Proof. unfold connected. by rewrite Hcontract, Hlibrary. Qed.

Lemma confirmTx_connected (transactionId : Z) :
  confirmTx g transactionId =
  (tx ← MultiSigWallet.confirmTransaction (connect c (getSigner lib)) transactionId;
   wait tx).
Proof.
  unfold confirmTx. rewrite connected_Some, bind_Fulfilled.
  by destruct (MultiSigWallet.confirmTransaction _ _).
Qed.

Lemma revokeConfirmation_connected (transactionId : Z) :
  revokeConfirmation g transactionId =
  (tx ← MultiSigWallet.revokeConfirmation (connect c (getSigner lib)) transactionId;
   wait tx).
Proof.
  unfold revokeConfirmation. rewrite connected_Some, bind_Fulfilled.
  by destruct (MultiSigWallet.revokeConfirmation _ _).
Qed.

Lemma addNewTx_connected (rt : Runtime) (destination abi method : string)
    (args : gmap string Value) (dc : DestinationContract)
    (entries : list Entry.t) (entry : Entry.t) :
  newContract rt destination abi = Fulfilled dc ->
  JSON_parse rt abi = Fulfilled entries ->
  findFunction entries method = Some entry ->
  addNewTx rt g destination abi method args =
  (data ← encodeFunctionData (interface dc) method
            (callArguments (Entry.inputs entry) args);
   tx ← MultiSigWallet.submitTransaction (connect c (getSigner lib))
          (destinationAddress dc) 0 data;
   wait tx).
Proof.
  intros Hnew Hparse Hfind. unfold addNewTx.
  rewrite Hnew, bind_Fulfilled, Hparse, bind_Fulfilled, Hfind, bind_Fulfilled.
  rewrite connected_Some, bind_Fulfilled.
  destruct (encodeFunctionData _ _ _) as [data|e]; [|done].
  rewrite !bind_Fulfilled.
  by destruct (MultiSigWallet.submitTransaction _ _ _ _).
Qed.

End GatewayFailures.

Lemma callFails_bind (call : Promise TransactionResponse) (e : Error) :
  callFails call e -> (tx ← call; wait tx) = Rejected e.
Proof. by intros [-> | (tx & -> & Hw)]. Qed.

Lemma sendTx_fulfilled (m : OwnerModal.Modal) (values : OwnerModal.FormValues) :
  exists r, (OwnerModal.sendTx m values).2 = Fulfilled r.
Proof.
  unfold OwnerModal.sendTx.
  destruct (OwnerModal.ownerCall m values); simpl; eauto.
Qed.

Lemma sendTx_failure (m : OwnerModal.Modal) (values : OwnerModal.FormValues)
    (e : Error) :
  OwnerModal.ownerCall m values = Rejected e ->
  OwnerModal.sendTx m values
    = (false, Fulfilled (OwnerModal.FormError (message e))).
Proof. unfold OwnerModal.sendTx. by intros ->. Qed.

(** C5 (as the code has it). With a contract and a signer at hand, a failure
    of the write call or of the receipt wait in [confirmTx],
    [revokeConfirmation] or [addNewTx] is not caught there: the promise the
    function returns is rejected with that very error. Catching happens one
    level up, in the owner form's [sendTx], whose promise is always
    fulfilled and carries the error message when [addOwner] or
    [replaceOwner] failed. *)
Theorem gateway_failures_reject (g : Gateway) (c : Contract) (lib : Library) :
  contract g = Some c ->
  signerLibrary g = Some lib ->
  let multisig := connect c (getSigner lib) in
  (forall transactionId e,
     callFails (MultiSigWallet.confirmTransaction multisig transactionId) e ->
     confirmTx g transactionId = Rejected e)
  /\ (forall transactionId e,
        callFails (MultiSigWallet.revokeConfirmation multisig transactionId) e ->
        revokeConfirmation g transactionId = Rejected e)
  /\ (forall rt destination abi method args dc entries entry data e,
        newContract rt destination abi = Fulfilled dc ->
        JSON_parse rt abi = Fulfilled entries ->
        findFunction entries method = Some entry ->
        encodeFunctionData (interface dc) method
          (callArguments (Entry.inputs entry) args) = Fulfilled data ->
        callFails (MultiSigWallet.submitTransaction multisig
                     (destinationAddress dc) 0 data) e ->
        addNewTx rt g destination abi method args = Rejected e)
  /\ (forall m values,
        (exists r, (OwnerModal.sendTx m values).2 = Fulfilled r)
        /\ forall e,
             OwnerModal.ownerCall m values = Rejected e ->
             OwnerModal.sendTx m values
               = (false, Fulfilled (OwnerModal.FormError (message e)))).
Proof.
  intros Hc Hl multisig. repeat split.
  - intros transactionId e Hf.
    rewrite (confirmTx_connected g c lib Hc Hl). by apply callFails_bind.
  - intros transactionId e Hf.
    rewrite (revokeConfirmation_connected g c lib Hc Hl). by apply callFails_bind.
  - intros rt destination abi method args dc entries entry data e Hn Hp Hfind He Hf.
    rewrite (addNewTx_connected g c lib Hc Hl rt destination abi method args
               dc entries entry Hn Hp Hfind).
    rewrite He, bind_Fulfilled. by apply callFails_bind.
  - apply sendTx_fulfilled.
  - apply sendTx_failure.
Qed.

(** C5 at a contract that reverts the confirmation of transaction 7. *)
Lemma gateway_failures_reject_witness :
  contract (gatewayOf revertingWallet) = Some (contractOf revertingWallet)
  /\ signerLibrary (gatewayOf revertingWallet) = Some {| getSigner := "0xSigner" |}
  /\ confirmTx (gatewayOf revertingWallet) 7
     = Rejected (CallException "execution reverted").
Proof.
  split; [reflexivity|]. split; [reflexivity|].
  apply (gateway_failures_reject (gatewayOf revertingWallet)
           (contractOf revertingWallet) {| getSigner := "0xSigner" |}
           eq_refl eq_refl).
  left. reflexivity.
Defined.

(** C5, as stated, fails: a reverted call and a failed receipt wait both
    come back from the gateway functions as rejected promises, not as
    values. *)
Lemma gateway_failure_is_a_rejection :
  confirmTx (gatewayOf revertingWallet) 0
    = Rejected (CallException "execution reverted")
  /\ revokeConfirmation (gatewayOf revertingWallet) 0
     = Rejected (CallException "execution reverted")
  /\ addNewTx tokenRuntime (gatewayOf revertingWallet) "0xToken" "[]" "transfer" ∅
     = Rejected (CallException "execution reverted")
  /\ confirmTx (gatewayOf droppingWallet) 0 = Rejected (CallException "timeout").
Proof. repeat split; reflexivity. Qed.

(** C6. Against a contract that holds [n] transactions, [confirmTx] and
    [revokeConfirmation] called with an id outside [0 .. n-1] do not
    succeed: the returned promise is rejected, and when a signer is
    connected it is rejected with the error of the reverted call. *)
Theorem out_of_range_id_fails (n : nat) (deployed : option Contract)
    (lib : option Library) (transactionId : Z) :
  ~ (0 <= transactionId < Z.of_nat n) ->
  let g := {| contract := specContract n <$> deployed; signerLibrary := lib |} in
  isRejected (confirmTx g transactionId)
  /\ isRejected (revokeConfirmation g transactionId)
  /\ (is_Some deployed -> is_Some lib ->
      confirmTx g transactionId = Rejected (CallException "execution reverted")
      /\ revokeConfirmation g transactionId
         = Rejected (CallException "execution reverted")).
Proof.
  intros Hout g.
  assert (Hguard : (0 <=? transactionId) && (transactionId <? Z.of_nat n) = false).
  { apply andb_false_iff.
    destruct (Z.leb_spec 0 transactionId); [right|by left].
    apply Z.ltb_ge. lia. }
  destruct deployed as [d|], lib as [l|]; simpl.
  - assert (Hc : confirmTx g transactionId
                 = Rejected (CallException "execution reverted")).
    { rewrite (confirmTx_connected g (specContract n d) l eq_refl eq_refl).
      simpl. by rewrite Hguard. }
    assert (Hr : revokeConfirmation g transactionId
                 = Rejected (CallException "execution reverted")).
    { rewrite (revokeConfirmation_connected g (specContract n d) l eq_refl eq_refl).
      simpl. by rewrite Hguard. }
    rewrite Hc, Hr. simpl. done.
  - split; [exact I|]. split; [exact I|]. intros _ [? Hn]. discriminate Hn.
  - split; [exact I|]. split; [exact I|]. intros [? Hn]. discriminate Hn.
  - split; [exact I|]. split; [exact I|]. intros [? Hn]. discriminate Hn.
Qed.

(** C6 at id 3 with three transactions on chain, over a binding that
    would accept any call. *)
Lemma out_of_range_id_fails_witness :
  ~ (0 <= 3 < Z.of_nat 3)
  /\ confirmTx {| contract := Some (specContract 3 (contractOf acceptingWallet));
                  signerLibrary := Some {| getSigner := "0xSigner" |} |} 3
     = Rejected (CallException "execution reverted").
Proof.
  split; [lia|].
  apply (out_of_range_id_fails 3 (Some (contractOf acceptingWallet))
           (Some {| getSigner := "0xSigner" |}) 3); [lia | by eexists | by eexists].
Defined.

(** The entry picked by [addNewTx] is the first function entry of the ABI
    that has the name of the method. *)
Lemma findFunction_first (method : string) (before after : list Entry.t)
    (entry : Entry.t) :
  Forall (fun e => ~ isFunctionNamed method e) before ->
  isFunctionNamed method entry ->
  findFunction (before ++ entry :: after) method = Some entry.
Proof.
  intros Hbefore [Htype Hname]. unfold findFunction.
  induction Hbefore as [|e before He _ IH]; simpl.
  - rewrite Htype. simpl. rewrite Hname, String.eqb_refl. done.
  - destruct (String.eqb (Entry.type e) "function") eqn:Et; [|done].
    simpl. destruct (Entry.name e) as [name|] eqn:En; [|done].
    destruct (String.eqb name method) eqn:Em; [|done].
    exfalso. apply He. split.
    + by apply String.eqb_eq.
    + rewrite En. f_equal. by apply String.eqb_eq.
Qed.

(** C7 (as the code has it). When the ABI declares the method as a
    function with parameters [ins] (the first function entry of that name),
    the argument list that [addNewTx] hands to the encoder has one slot per
    declared parameter, in the declared order; slot [k] is the property of
    [args] named after the [k]-th parameter: the own property when [args]
    has one, else the inherited value when the name is one of
    [Object.prototype]'s, else [undefined]. The encoded call is then
    submitted and its receipt awaited. *)
Theorem addNewTx_orders_arguments (rt : Runtime) (g : Gateway) (c : Contract)
    (lib : Library) (destination abi method : string)
    (args : gmap string Value) (dc : DestinationContract)
    (before after : list Entry.t) (entry : Entry.t) (ins : list Input.t) :
  contract g = Some c ->
  signerLibrary g = Some lib ->
  newContract rt destination abi = Fulfilled dc ->
  JSON_parse rt abi = Fulfilled (before ++ entry :: after)%list ->
  Forall (fun e => ~ isFunctionNamed method e) before ->
  isFunctionNamed method entry ->
  Entry.inputs entry = Some ins ->
  exists slots : list Value,
    addNewTx rt g destination abi method args =
      (data ← encodeFunctionData (interface dc) method (Some slots);
       tx ← MultiSigWallet.submitTransaction (connect c (getSigner lib))
              (destinationAddress dc) 0 data;
       wait tx)
    /\ length slots = length ins
    /\ (forall (k : nat) (input : Input.t), ins !! k = Some input ->
          slots !! k = Some (match args !! Input.name input with
                             | Some v => v
                             | None =>
                               if bool_decide
                                    (Input.name input ∈ objectPrototypeNames)
                               then JObject else JUndefined
                             end)).
Proof.
  intros Hc Hl Hnew Hparse Hbefore Hentry Hins.
  exists ((fun input => property args (Input.name input)) <$> ins).
  split; [|split].
  - rewrite (addNewTx_connected g c lib Hc Hl rt destination abi method args dc
               (before ++ entry :: after) entry Hnew Hparse
               (findFunction_first method before after entry Hbefore Hentry)).
    by rewrite Hins.
  - apply length_fmap.
  - intros k input Hk. rewrite list_lookup_fmap, Hk. reflexivity.
Qed.

(** C7 at [transfer(to, amount)] called with only [to] supplied. *)
Lemma addNewTx_orders_arguments_witness :
  exists slots : list Value,
    addNewTx tokenRuntime (gatewayOf acceptingWallet) "0xToken" "[]" "transfer"
      {[ "to" := JString "0xabc" ]} =
      (data ← encodeFunctionData
                (interface {| destinationAddress := "0xToken";
                              interface := {| encodeFunctionData := fun _ _ => Fulfilled "0xdata" |} |})
                "transfer" (Some slots);
       tx ← MultiSigWallet.submitTransaction acceptingWallet "0xToken" 0 data;
       wait tx)
    /\ length slots = 2%nat
    /\ (forall (k : nat) (input : Input.t),
          [ {| Input.name := "to"; Input.type := "address" |};
            {| Input.name := "amount"; Input.type := "uint256" |} ] !! k = Some input ->
          slots !! k = Some (match ({[ "to" := JString "0xabc" ]} : gmap string Value)
                                     !! Input.name input with
                             | Some v => v
                             | None =>
                               if bool_decide
                                    (Input.name input ∈ objectPrototypeNames)
                               then JObject else JUndefined
                             end)).
Proof.
  apply (addNewTx_orders_arguments tokenRuntime (gatewayOf acceptingWallet)
           (contractOf acceptingWallet) {| getSigner := "0xSigner" |}
           "0xToken" "[]" "transfer" {[ "to" := JString "0xabc" ]}
           {| destinationAddress := "0xToken";
              interface := {| encodeFunctionData := fun _ _ => Fulfilled "0xdata" |} |}
           [transferEvent] [] transferFunction
           [ {| Input.name := "to"; Input.type := "address" |};
             {| Input.name := "amount"; Input.type := "uint256" |} ]);
    try reflexivity.
  - constructor; [|constructor]. intros [Ht _]. discriminate Ht.
  - split; reflexivity.
Defined.

(** C7, as stated, fails: for a function with a parameter named [valueOf]
    and an argument object without that key, the slot is not [undefined] but
    the [valueOf] every object inherits, and that is what the encoder
    receives. *)
Lemma inherited_property_fills_missing_argument :
  (∅ : gmap string Value) !! "valueOf" = None
  /\ callArguments (Entry.inputs valueOfFunction) ∅ = Some [JObject]
  /\ addNewTx kindRuntime (gatewayOf echoingWallet) "0xToken" "[]" "f" ∅
     = Fulfilled "object".
Proof. split; [reflexivity|]. split; reflexivity. Qed.

Example addNewTx_missing_argument :
  callArguments (Entry.inputs transferFunction) {[ "to" := JString "0xabc" ]}
  = Some [JString "0xabc"; JUndefined].
Proof. reflexivity. Qed.

(** ** The owner form *)

Section OwnerForm.

Import OwnerModal.

Variable isAddress : string -> bool.
Variable owners : list string.

Lemma hasLength_Some (candidate : string) :
  candidate <> "" -> hasLength (Some candidate) = true.
Proof. by destruct candidate. Qed.

Lemma validate_invalid (candidate : string) :
  candidate <> "" -> isAddress candidate = false ->
  validate isAddress owners {| values_newOwnerAddress := Some candidate |}
  = {| newOwnerAddress := Some "Please enter a valid address" |}.
Proof.
  intros Hne Hinv. unfold validate. cbn [values_newOwnerAddress].
  rewrite (hasLength_Some candidate Hne). simpl. by rewrite Hinv.
Qed.

Lemma some_owner_matches (candidate : string) :
  (exists owner, owner ∈ owners /\ toUpperCase owner = toUpperCase candidate) ->
  existsb (fun owner => String.eqb (toUpperCase owner) (toUpperCase candidate))
          owners = true.
Proof.
  intros (owner & Hin & Heq). apply existsb_exists. exists owner.
  split; [by apply list_elem_of_In|]. by apply String.eqb_eq.
Qed.

Lemma validate_duplicate (candidate : string) :
  candidate <> "" -> isAddress candidate = true ->
  (exists owner, owner ∈ owners /\ toUpperCase owner = toUpperCase candidate) ->
  validate isAddress owners {| values_newOwnerAddress := Some candidate |}
  = {| newOwnerAddress := Some "This address is already an owner" |}.
Proof.
  intros Hne Hvalid Hdup. unfold validate. cbn [values_newOwnerAddress].
  rewrite (hasLength_Some candidate Hne). simpl. rewrite Hvalid. simpl.
  by rewrite (some_owner_matches candidate Hdup).
Qed.

End OwnerForm.

(** C8 (as the code has it). For a candidate that is not the empty string,
    [validate] reports an error when [isAddress] refuses it and when it
    equals an existing owner after upper-casing both; [validate] returns the
    error record and nothing else. For the empty or missing candidate
    [validate] reports no error; there [canSubmit] is what keeps the form
    from being sent: it gives [0] or throws. *)
Theorem validate_rejects_nonempty_candidate (isAddress : string -> bool)
    (owners : list string) (candidate : string) :
  candidate <> "" ->
  let errors :=
    OwnerModal.validate isAddress owners
      {| OwnerModal.values_newOwnerAddress := Some candidate |} in
  (isAddress candidate = false ->
   OwnerModal.newOwnerAddress errors = Some "Please enter a valid address")
  /\ ((exists owner, owner ∈ owners /\ toUpperCase owner = toUpperCase candidate) ->
      is_Some (OwnerModal.newOwnerAddress errors))
  /\ (forall empty, empty = Some "" \/ empty = None ->
        OwnerModal.validate isAddress owners
          {| OwnerModal.values_newOwnerAddress := empty |}
        = {| OwnerModal.newOwnerAddress := None |}
        /\ forall errs,
             match OwnerModal.canSubmit
                     {| OwnerModal.values_newOwnerAddress := empty |} errs with
             | Fulfilled v => truthy v = false
             | Rejected _ => True
             end).
Proof.
  intros Hne errors. split; [|split].
  - intros Hinv. subst errors. by rewrite validate_invalid.
  - intros Hdup. subst errors.
    destruct (isAddress candidate) eqn:Hvalid.
    + by rewrite validate_duplicate.
    + by rewrite validate_invalid.
  - intros empty [-> | ->]; (split; [reflexivity|]); intros errs; simpl; done.
Qed.

(** C8 at a candidate that is not an address. *)
Lemma validate_rejects_nonempty_candidate_witness :
  "0xZZ" <> ""
  /\ addressFormat "0xZZ" = false
  /\ OwnerModal.newOwnerAddress
       (OwnerModal.validate addressFormat someOwners
          {| OwnerModal.values_newOwnerAddress := Some "0xZZ" |})
     = Some "Please enter a valid address".
Proof.
  split; [discriminate|]. split; [reflexivity|].
  apply (validate_rejects_nonempty_candidate addressFormat someOwners "0xZZ");
    [discriminate | reflexivity].
Defined.

(** C8, as stated, fails: the empty string is not an address, and
    validation reports no error for it. *)
Lemma empty_candidate_passes_validation :
  addressFormat "" = false
  /\ OwnerModal.validate addressFormat someOwners
       {| OwnerModal.values_newOwnerAddress := Some "" |}
     = {| OwnerModal.newOwnerAddress := None |}.
Proof. split; reflexivity. Qed.

Example validate_duplicate_owner_other_case :
  OwnerModal.validate addressFormat someOwners
    {| OwnerModal.values_newOwnerAddress :=
         Some "0xDE709F2102306220921060314715629080E2FB77" |}
  = {| OwnerModal.newOwnerAddress := Some "This address is already an owner" |}.
Proof. vm_compute. reflexivity. Qed.

(** ** The scenario of the specification *)

(** Count 3 on an empty list gives ids 0, 1, 2; the next count that resolves
    puts id 3 in front, and the one after that id 4, one entry each time. *)
Example scenario_ids :
  (fun st => id <$> transactions st) <$>
    run "0xW" initial
      [ChainIdChanged; TransactionCountChanged (Some 3%nat);
       TransactionCountChanged (Some 4%nat); Submission;
       TransactionCountChanged (Some 7%nat)]
  = Fulfilled [4; 3; 0; 1; 2].
Proof. reflexivity. Qed.

(** * Further properties of the code *)

(** ** The local transaction list, continued *)

Section SyncEngineMore.

Variable addr : string.

Lemma step_length (st st' : Engine) (ev : Event) :
  step addr st ev = Fulfilled st' ->
  (length (transactions st) <= length (transactions st'))%nat.
Proof.
  destruct ev as [| [n|] | | tx].
  - by intros [= <-].
  - destruct (transactions st) as [|t txs] eqn:E.
    + intros _. simpl. lia.
    + rewrite step_count_on_nonempty by (by rewrite E). intros [= <-].
      cbn [transactions]. rewrite E. simpl. lia.
  - by intros [= <-].
  - by intros [= <-].
  - intros [= <-]. simpl. by rewrite length_fmap.
Qed.

Lemma step_suffix (st st' : Engine) (ev : Event) :
  isUpdate ev = false ->
  step addr st ev = Fulfilled st' ->
  transactions st `suffix_of` transactions st'.
Proof.
  destruct ev as [| [n|] | | tx]; try done.
  - by intros _ [= <-].
  - intros _. destruct (transactions st) as [|t txs] eqn:E.
    + intros _. apply suffix_nil.
    + rewrite step_count_on_nonempty by (by rewrite E). intros [= <-].
      cbn [transactions]. rewrite E. by apply suffix_cons_r.
  - by intros _ [= <-].
  - by intros _ [= <-].
Qed.

Lemma step_fetcherCalls (st st' : Engine) (ev : Event) :
  step addr st ev = Fulfilled st' ->
  fetcherCalls st' =
  (fetcherCalls st ++ if isRevalidation ev then [Mutate None true] else [])%list.
Proof.
  destruct ev as [| [n|] | | tx].
  - by intros [= <-].
  - destruct (transactions st) as [|t txs] eqn:E.
    + destruct (validArrayLength n) eqn:Hv.
      * rewrite (step_count_on_empty addr n st E Hv). intros [= <-]. simpl.
        by rewrite app_nil_r.
      * by rewrite (step_count_too_large addr n st E Hv).
    + rewrite step_count_on_nonempty by (by rewrite E). intros [= <-]. simpl.
      by rewrite app_nil_r.
  - intros [= <-]. simpl. by rewrite app_nil_r.
  - by intros [= <-].
  - intros [= <-]. simpl. by rewrite app_nil_r.
Qed.

Lemma run_length_suffix (evs : list Event) (st st' : Engine) :
  run addr st evs = Fulfilled st' ->
  (length (transactions st) <= length (transactions st'))%nat
  /\ (forallb (fun ev => negb (isUpdate ev)) evs = true ->
      transactions st `suffix_of` transactions st').
Proof.
  revert st. induction evs as [|ev evs IH]; intros st.
  - intros [= <-]. split; [lia|done].
  - intros (st1 & H1 & Hrun)%run_cons.
    destruct (IH st1 Hrun) as [Hlen Hsuf]. split.
    + pose proof (step_length st st1 ev H1). lia.
    + intros [Hev Hrest]%andb_true_iff. apply negb_true_iff in Hev.
      etrans; [by apply (step_suffix st st1 ev)|]. by apply Hsuf.
Qed.

End SyncEngineMore.

(** X1. No reaction of the provider removes a transaction: after any
    events it has reacted to, from any state, the list is at least as long
    as before, and when no event is a call of [updateTransactions] the old
    list is still there, entry for entry, at the end of the new one. The
    one reaction that throws is a count of [2^32] or more resolving on an
    empty list, with a [RangeError]; events whose counts fit an array are
    all reacted to. *)
Theorem run_never_deletes (addr : string) (evs : list Event) (st : Engine) :
  (forall st',
     run addr st evs = Fulfilled st' ->
     (length (transactions st) <= length (transactions st'))%nat
     /\ (forallb (fun ev => negb (isUpdate ev)) evs = true ->
         transactions st `suffix_of` transactions st'))
  /\ (forall ev e,
        step addr st ev = Rejected e <->
        exists n, ev = TransactionCountChanged (Some n)
                  /\ transactions st = []
                  /\ validArrayLength n = false
                  /\ e = RangeError "Invalid array length")
  /\ (forallb countFits evs = true ->
      exists st', run addr st evs = Fulfilled st').
Proof.
  split; [|split].
  - intros st'. apply run_length_suffix.
  - intros ev e. apply step_Rejected_iff.
  - apply run_fits.
Qed.

(** X2. Each change of [chainId] and each [Submission] event sends exactly
    one [mutate(undefined, true)] to the fetcher; counts that resolve and
    calls of [updateTransactions] send nothing. *)
Theorem run_fetcherCalls (addr : string) (evs : list Event) (st st' : Engine) :
  run addr st evs = Fulfilled st' ->
  fetcherCalls st' =
  (fetcherCalls st
   ++ replicate (length (List.filter isRevalidation evs)) (Mutate None true))%list.
Proof.
  revert st. induction evs as [|ev evs IH]; intros st.
  - intros [= <-]. simpl. by rewrite app_nil_r.
  - intros (st1 & H1 & Hrun)%run_cons.
    rewrite (IH st1 Hrun), (step_fetcherCalls addr st st1 ev H1).
    cbn [List.filter]. destruct (isRevalidation ev); simpl.
    + by rewrite <- app_assoc.
    + by rewrite app_nil_r.
Qed.

(** X2 at a run with two revalidations among five events. *)
Lemma run_fetcherCalls_witness :
  let evs := [ChainIdChanged; TransactionCountChanged (Some 3%nat);
              UpdateTransactions (placeholder 1 "0xW"); Submission;
              TransactionCountChanged (Some 4%nat)] in
  let st' := {| transactions :=
                  placeholder 3 "0xW" :: placeholders "0xW" 3;
                fetcherCalls := [Mutate None true; Mutate None true] |} in
  run "0xW" initial evs = Fulfilled st'
  /\ fetcherCalls st' =
     (fetcherCalls initial
      ++ replicate (length (List.filter isRevalidation evs)) (Mutate None true))%list.
Proof.
  cbv zeta. split; [reflexivity|].
  apply (run_fetcherCalls "0xW"
           [ChainIdChanged; TransactionCountChanged (Some 3%nat);
            UpdateTransactions (placeholder 1 "0xW"); Submission;
            TransactionCountChanged (Some 4%nat)] initial).
  reflexivity.
Defined.






(** X4. Updates by id compose as last-writer-wins: two updates for
    different ids can be applied in either order, and of two updates for the
    same id only the second one shows. *)
Theorem updateTransactions_compose (tx1 tx2 : Transaction)
    (txs : list Transaction) :
  (id tx1 <> id tx2 ->
   updated tx1 (updated tx2 txs) = updated tx2 (updated tx1 txs))
  /\ (id tx1 = id tx2 -> updated tx2 (updated tx1 txs) = updated tx2 txs).
Proof.
  unfold updated. simpl. split; intros Hid.
  - rewrite <- !list_fmap_compose. apply list_fmap_ext. intros _ t _. simpl.
    destruct (Z.eqb_spec (id tx2) (id t)), (Z.eqb_spec (id tx1) (id t));
      repeat match goal with
             | |- context [(?a =? ?b)] => destruct (Z.eqb_spec a b)
             end; congruence.
  - rewrite <- list_fmap_compose. apply list_fmap_ext. intros _ t _. simpl.
    destruct (Z.eqb_spec (id tx1) (id t));
      repeat match goal with
             | |- context [(?a =? ?b)] => destruct (Z.eqb_spec a b)
             end; congruence.
Qed.

(** X5. On a list whose ids are pairwise distinct, [updateTransactions(tx)]
    is a write in place: it stores [tx] at the position of the entry that has
    its id and changes nothing else. *)
Theorem updateTransactions_is_insert (tx t : Transaction)
    (txs : list Transaction) (i : nat) :
  NoDup (id <$> txs) ->
  txs !! i = Some t ->
  id t = id tx ->
  updated tx txs = <[i := tx]> txs.
Proof.
  intros Hnd Hi Hid. apply list_eq. intros j. unfold updated. simpl.
  rewrite list_lookup_fmap. destruct (decide (i = j)) as [<- | Hne].
  - rewrite Hi. simpl. rewrite list_lookup_insert_eq by by eapply lookup_lt_Some.
    by rewrite <- Hid, Z.eqb_refl.
  - rewrite list_lookup_insert_ne by done.
    destruct (txs !! j) as [t'|] eqn:Hj; [|done]. simpl. f_equal.
    destruct (id tx =? id t') eqn:E; [|done].
    apply Z.eqb_eq in E. exfalso. apply Hne.
    apply (NoDup_lookup (id <$> txs) i j (id tx)); [done| |].
    + by rewrite list_lookup_fmap, Hi, <- Hid.
    + by rewrite list_lookup_fmap, Hj, E.
Qed.

(** X5 at the middle entry of three placeholders. *)
Lemma updateTransactions_is_insert_witness :
  let tx := {| id := 1; address := "0xW"; data := Some "0x";
               confirmations := Some ["0xA"]; status := Some pending |} in
  NoDup (id <$> placeholders "0xW" 3)
  /\ placeholders "0xW" 3 !! 1%nat = Some (placeholder 1 "0xW")
  /\ updated tx (placeholders "0xW" 3) = <[1%nat := tx]> (placeholders "0xW" 3).
Proof.
  cbv zeta. split; [|split; [reflexivity|]].
  - apply (bool_decide_unpack _). by vm_compute.
  - apply (updateTransactions_is_insert _ (placeholder 1 "0xW")
             (placeholders "0xW" 3) 1%nat); [|reflexivity|reflexivity].
    apply (bool_decide_unpack _). by vm_compute.
Defined.

(** X6. A resolved count of zero leaves the list empty, so the count that
    resolves after it, when it fits an array, is loaded in bulk rather than
    prepended. *)
Theorem zero_count_then_bulk (addr : string) (n : nat) (st : Engine) :
  transactions st = [] ->
  Z.of_nat n < 2 ^ 32 ->
  run addr st [TransactionCountChanged (Some 0%nat);
               TransactionCountChanged (Some n)]
  = Fulfilled {| transactions := placeholders addr n;
                 fetcherCalls := fetcherCalls st |}.
Proof.
  intros Hempty Hfit%Z.ltb_lt. cbn [run].
  rewrite (step_count_on_empty addr 0 st Hempty eq_refl), bind_Fulfilled.
  by rewrite step_count_on_empty.
Qed.

(** X6 on the freshly mounted provider, with a count of 2 after the zero. *)
Lemma zero_count_then_bulk_witness :
  transactions initial = []
  /\ Z.of_nat 2 < 2 ^ 32
  /\ run "0xW" initial [TransactionCountChanged (Some 0%nat);
                        TransactionCountChanged (Some 2%nat)]
     = Fulfilled {| transactions := placeholders "0xW" 2; fetcherCalls := [] |}.
Proof.
  split; [reflexivity|]. split; [reflexivity|].
  apply (zero_count_then_bulk "0xW" 2 initial); reflexivity.
Defined.





(** A count reported twice in a row runs the effect once. *)
Example repeated_count_adds_one_entry :
  (fun st => id <$> transactions st) <$>
    run "0xW" {| transactions := placeholders "0xW" 2; fetcherCalls := [] |}
      (countEffectRuns (Some 2%nat) [Some 9; Some 9]%nat)
  = Fulfilled [2; 0; 1].
Proof. reflexivity. Qed.

(** ** The fetch key and the loading flag, continued *)

Section FetchKey.

Variable isAddress : string -> bool.

(** When the chain is reported as supported, all the lookups behind
    [includes] have succeeded. *)
Lemma chainSupported_truthy (h : Hooks) :
  truthy (chainSupported h) = true <->
  exists c conn ids,
    chainId h = Some c /\ connector h = Some conn
    /\ supportedChainIds conn = Some ids /\ c ∈ ids.
Proof.
  unfold chainSupported. split.
  - destruct (connector h) as [conn|]; [|done].
    destruct (supportedChainIds conn) as [ids|] eqn:Hids; [|done].
    destruct (chainId h) as [c|]; [|done]. simpl.
    intros Hin. exists c, conn, ids. repeat split; try done.
    by apply bool_decide_eq_true in Hin.
  - intros (c & conn & ids & -> & -> & -> & Hin). simpl.
    by apply bool_decide_eq_true.
Qed.

Lemma shouldFetch_truthy (h : Hooks) :
  truthy (shouldFetch isAddress h) = true <->
  isReady h = true /\ hasChainId h = true
  /\ isAddress (queryAddress h) = true /\ is_Some (library h)
  /\ truthy (chainSupported h) = true.
Proof.
  unfold shouldFetch, canFetch. rewrite !truthy_and. simpl.
  rewrite !andb_true_iff. split.
  - intros [[[[? ?] ?] Hl] ?]. repeat split; try done.
    destruct (library h); [by eexists|done].
  - intros (? & ? & ? & [l Hl] & ?). rewrite Hl. done.
Qed.

End FetchKey.

(** X8. The provider gives [useSWR] a key, and so lets it fetch, exactly
    when the router is ready, the address is valid, a library is connected,
    and [chainId] is a non-zero id listed by the connector as supported; the
    key is then the address paired with ['transactionCount']. *)
Theorem swrKey_preconditions (isAddress : string -> bool) (h : Hooks)
    (k : string * string) :
  swrKey isAddress h = Some k <->
  k = (queryAddress h, "transactionCount")
  /\ isReady h = true
  /\ isAddress (queryAddress h) = true
  /\ is_Some (library h)
  /\ exists c conn ids,
       chainId h = Some c /\ c <> 0 /\ connector h = Some conn
       /\ supportedChainIds conn = Some ids /\ c ∈ ids.
Proof.
  unfold swrKey. split.
  - destruct (truthy (shouldFetch isAddress h)) eqn:Hs; [|done].
    intros [= <-]. apply shouldFetch_truthy in Hs.
    destruct Hs as (Hr & Hc & Ha & Hl & Hsup).
    apply chainSupported_truthy in Hsup.
    destruct Hsup as (c & conn & ids & Hcid & Hconn & Hids & Hin).
    repeat split; try done. exists c, conn, ids. repeat split; try done.
    unfold hasChainId in Hc. rewrite Hcid in Hc.
    apply negb_true_iff, Z.eqb_neq in Hc. done.
  - intros (-> & Hr & Ha & Hl & c & conn & ids & Hcid & Hc & Hconn & Hids & Hin).
    assert (Hs : truthy (shouldFetch isAddress h) = true).
    { apply shouldFetch_truthy. repeat split; try done.
      - unfold hasChainId. rewrite Hcid. by apply negb_true_iff, Z.eqb_neq.
      - apply chainSupported_truthy. by exists c, conn, ids. }
    by rewrite Hs.
Qed.

(** X9. With no web3 error and no fetch error: as long as the router is
    not ready or [chainId] is missing or zero, [isLoading] is [true]; once
    there is a fetch key, [isLoading] is [isValidating]. *)
Theorem isLoading_without_error (isAddress : string -> bool) (h : Hooks) :
  web3Error h = None ->
  fetchError h = None ->
  (isReady h = false \/ hasChainId h = false ->
   isLoading isAddress h = JBool true)
  /\ (is_Some (swrKey isAddress h) ->
      isLoading isAddress h = JBool (isValidating h)).
Proof.
  intros Hw Hf. split.
  - unfold isLoading, canFetch. rewrite Hw, Hf.
    intros [-> | Hc]; [done|]. rewrite Hc. by destruct (isReady h).
  - unfold swrKey. intros [k Hk].
    destruct (truthy (shouldFetch isAddress h)) eqn:Hs; [|done].
    pose proof Hs as (Hr & Hc & _)%shouldFetch_truthy.
    unfold isLoading, canFetch. rewrite Hw, Hf, Hr, Hc.
    cbn [ofObject not_ truthy negb and_ or_]. unfold and_. by rewrite Hs.
Qed.

(** X9 at a render whose router is not ready yet. *)
Lemma isLoading_without_error_witness :
  let h := {| isReady := false; queryAddress := "0xW"; library := None;
              chainId := None; connector := None; web3Error := None;
              transactionCount := None; isValidating := false;
              fetchError := None |} in
  web3Error h = None /\ fetchError h = None
  /\ isLoading addressFormat h = JBool true.
Proof.
  cbv zeta. split; [reflexivity|]. split; [reflexivity|].
  apply (isLoading_without_error addressFormat); [reflexivity|reflexivity|].
  left. reflexivity.
Defined.

(** X10. [isLoading] is a boolean or [undefined], and it is [undefined]
    exactly when there is no error, the router is ready with a non-zero
    [chainId] and a valid address, and either no library is connected or
    the connector gives no list of supported chains. *)
Theorem isLoading_undefined (isAddress : string -> bool) (h : Hooks) :
  (isLoading isAddress h = JUndefined <->
   web3Error h = None /\ fetchError h = None
   /\ isReady h = true /\ hasChainId h = true
   /\ isAddress (queryAddress h) = true
   /\ (library h = None \/ chainSupported h = JUndefined))
  /\ (isLoading isAddress h = JUndefined
      \/ exists b, isLoading isAddress h = JBool b).
Proof.
  unfold isLoading, shouldFetch, canFetch, chainSupported.
  destruct (web3Error h), (fetchError h), (isReady h), (hasChainId h),
    (isAddress (queryAddress h)), (library h), (connector h) as [conn|];
    try destruct (supportedChainIds conn);
    try destruct (isValidating h);
    try destruct (match chainId h with Some c => bool_decide _ | None => false end);
    simpl; (split; [split; [try done; intros _; repeat split; by eauto
                           | try done; intros (? & ? & ? & ? & ? & [? | ?]); done]
                   | eauto]).
Qed.

(** ** The action gateway, continued *)

Lemma bind_wait_Fulfilled (call : Promise TransactionResponse) (r : Receipt) :
  (tx ← call; wait tx) = Fulfilled r <->
  exists tx, call = Fulfilled tx /\ wait tx = Fulfilled r.
Proof.
  split.
  - destruct call as [tx|e]; [|done]. rewrite bind_Fulfilled. by exists tx.
  - by intros (tx & -> & Hw).
Qed.

(** X11. [confirmTx] and [revokeConfirmation] are fulfilled only with the
    receipt of a call that went through: a contract and a library are
    there, the contract call on the connected signer was accepted, and the
    wait on it gave that receipt. *)
Theorem confirm_revoke_fulfilled (g : Gateway) (transactionId : Z) (r : Receipt) :
  (confirmTx g transactionId = Fulfilled r <->
   exists c lib tx,
     contract g = Some c /\ signerLibrary g = Some lib
     /\ MultiSigWallet.confirmTransaction (connect c (getSigner lib)) transactionId
        = Fulfilled tx
     /\ wait tx = Fulfilled r)
  /\ (revokeConfirmation g transactionId = Fulfilled r <->
      exists c lib tx,
        contract g = Some c /\ signerLibrary g = Some lib
        /\ MultiSigWallet.revokeConfirmation (connect c (getSigner lib)) transactionId
           = Fulfilled tx
        /\ wait tx = Fulfilled r).
Proof.
  split.
  - destruct (contract g) as [c|] eqn:Hc, (signerLibrary g) as [lib|] eqn:Hl.
    + rewrite (confirmTx_connected g c lib Hc Hl), bind_wait_Fulfilled. split.
      * intros (tx & ? & ?). by exists c, lib, tx.
      * intros (c' & lib' & tx & [= <-] & [= <-] & ? & ?). by exists tx.
    + unfold confirmTx, connected. rewrite Hc, Hl. split; [done|].
      by intros (? & ? & ? & _ & ? & _).
    + unfold confirmTx, connected. rewrite Hc. split; [done|].
      by intros (? & ? & ? & ? & _).
    + unfold confirmTx, connected. rewrite Hc. split; [done|].
      by intros (? & ? & ? & ? & _).
  - destruct (contract g) as [c|] eqn:Hc, (signerLibrary g) as [lib|] eqn:Hl.
    + rewrite (revokeConfirmation_connected g c lib Hc Hl), bind_wait_Fulfilled.
      split.
      * intros (tx & ? & ?). by exists c, lib, tx.
      * intros (c' & lib' & tx & [= <-] & [= <-] & ? & ?). by exists tx.
    + unfold revokeConfirmation, connected. rewrite Hc, Hl. split; [done|].
      by intros (? & ? & ? & _ & ? & _).
    + unfold revokeConfirmation, connected. rewrite Hc. split; [done|].
      by intros (? & ? & ? & ? & _).
    + unfold revokeConfirmation, connected. rewrite Hc. split; [done|].
      by intros (? & ? & ? & ? & _).
Qed.

(** X12. Without a contract (the router was not ready or the address not
    valid when it was built) [confirmTx] and [revokeConfirmation] are
    rejected with the [TypeError] of calling [wait] on [undefined], whether
    or not a library is connected; with a contract but no library they are
    rejected with the [TypeError] of calling [getSigner] on [undefined]. *)
Theorem confirm_revoke_not_connected (g : Gateway) (transactionId : Z) :
  contract g = None \/ signerLibrary g = None ->
  let e := match contract g with
           | None => TypeError "Cannot read property 'wait' of undefined"
           | Some _ => TypeError "Cannot read property 'getSigner' of undefined"
           end in
  confirmTx g transactionId = Rejected e
  /\ revokeConfirmation g transactionId = Rejected e.
Proof.
  intros H. unfold confirmTx, revokeConfirmation, connected.
  destruct (contract g) as [c|], (signerLibrary g) as [lib|]; simpl; try done.
  by destruct H.
Qed.

(** X12 at a gateway that has a library but no contract. *)
Lemma confirm_revoke_not_connected_witness :
  let g := {| contract := None;
              signerLibrary := Some {| getSigner := "0xSigner" |} |} in
  (contract g = None \/ signerLibrary g = None)
  /\ confirmTx g 0
     = Rejected (TypeError "Cannot read property 'wait' of undefined")
  /\ revokeConfirmation g 0
     = Rejected (TypeError "Cannot read property 'wait' of undefined").
Proof.
  cbv zeta. split; [by left|].
  apply (confirm_revoke_not_connected
           {| contract := None;
              signerLibrary := Some {| getSigner := "0xSigner" |} |} 0).
  by left.
Defined.

Lemma findFunction_Some (entries : list Entry.t) (method : string)
    (entry : Entry.t) :
  findFunction entries method = Some entry ->
  entry ∈ entries /\ isFunctionNamed method entry.
Proof.
  unfold findFunction. intros Hfind. apply find_some in Hfind.
  destruct Hfind as [Hin Hname]. apply filter_In in Hin.
  destruct Hin as [Hin Htype]. split; [by apply list_elem_of_In|]. split.
  - by apply String.eqb_eq.
  - destruct (Entry.name entry) as [n|]; [|done]. f_equal.
    by apply String.eqb_eq.
Qed.

Lemma findFunction_None (entries : list Entry.t) (method : string) :
  findFunction entries method = None <->
  Forall (fun e => ~ isFunctionNamed method e) entries.
Proof.
  split.
  - intros Hnone. apply Forall_forall. intros e He [Htype Hname].
    unfold findFunction in Hnone.
    pose proof (find_none _ _ Hnone e) as Hf. simpl in Hf.
    rewrite Hname, String.eqb_refl in Hf. discriminate Hf.
    apply filter_In. split; [by apply list_elem_of_In|].
    rewrite Htype. done.
  - intros Hall. destruct (findFunction entries method) as [entry|] eqn:Hf; [|done].
    apply findFunction_Some in Hf. destruct Hf as [Hin Hnamed].
    rewrite Forall_forall in Hall. by destruct (Hall entry Hin).
Qed.

(** X13. The ABI entry [addNewTx] works from is an entry of the ABI whose
    type is ['function'] and whose name is the method, so an event or a
    constructor of that name is never taken; and none is found exactly when
    the ABI has no function of that name. *)
Theorem findFunction_sound_complete (entries : list Entry.t) (method : string) :
  match findFunction entries method with
  | Some entry => entry ∈ entries /\ isFunctionNamed method entry
  | None => Forall (fun e => ~ isFunctionNamed method e) entries
  end.
Proof.
  destruct (findFunction entries method) as [entry|] eqn:Hf.
  - by apply findFunction_Some.
  - by apply findFunction_None.
Qed.

(** X14. [addNewTx] fails before it touches the chain binding when the
    destination contract cannot be built, when the ABI text does not parse,
    and when the ABI has no function named as the method: the promise is
    rejected with the error of that step (a [TypeError] in the last case),
    whatever the multisig contract and the library are. *)
Theorem addNewTx_fails_before_chain (rt : Runtime) (g : Gateway)
    (destination abi method : string) (args : gmap string Value) :
  (forall e, newContract rt destination abi = Rejected e ->
     addNewTx rt g destination abi method args = Rejected e)
  /\ (forall dc e,
        newContract rt destination abi = Fulfilled dc ->
        JSON_parse rt abi = Rejected e ->
        addNewTx rt g destination abi method args = Rejected e)
  /\ (forall dc entries,
        newContract rt destination abi = Fulfilled dc ->
        JSON_parse rt abi = Fulfilled entries ->
        Forall (fun e => ~ isFunctionNamed method e) entries ->
        addNewTx rt g destination abi method args
        = Rejected (TypeError "Cannot read property 'inputs' of undefined")).
Proof.
  unfold addNewTx. repeat split.
  - by intros e ->.
  - by intros dc e -> ->.
  - intros dc entries -> -> Hnone%findFunction_None.
    rewrite !bind_Fulfilled, Hnone. done.
Qed.

(** X15. Only the properties of [args] named after a declared parameter
    matter: two argument records that agree on the parameter names of the
    method's ABI entry give the same result, so extra keys are ignored. *)
Theorem addNewTx_ignores_other_keys (rt : Runtime) (g : Gateway)
    (destination abi method : string) (args args' : gmap string Value) :
  (forall entries entry ins input,
     JSON_parse rt abi = Fulfilled entries ->
     findFunction entries method = Some entry ->
     Entry.inputs entry = Some ins ->
     input ∈ ins ->
     args !! Input.name input = args' !! Input.name input) ->
  addNewTx rt g destination abi method args
  = addNewTx rt g destination abi method args'.
Proof.
  intros Hagree. unfold addNewTx.
  destruct (newContract rt destination abi) as [dc|e]; [|done].
  rewrite !bind_Fulfilled.
  destruct (JSON_parse rt abi) as [entries|e] eqn:Hp; [|done].
  rewrite !bind_Fulfilled.
  destruct (findFunction entries method) as [entry|] eqn:Hf; [|done].
  rewrite !bind_Fulfilled.
  assert (Hargs : callArguments (Entry.inputs entry) args
                  = callArguments (Entry.inputs entry) args').
  { unfold callArguments. destruct (Entry.inputs entry) as [ins|] eqn:Hi; [|done].
    f_equal. apply list_fmap_ext. intros _ input Hin%list_elem_of_lookup_2.
    unfold property. by rewrite (Hagree entries entry ins input). }
  by rewrite Hargs.
Qed.

(** X15 at a record with the two parameters of [transfer] and the same
    record with one more key. *)
Lemma addNewTx_ignores_other_keys_witness :
  addNewTx tokenRuntime (gatewayOf acceptingWallet) "0xToken" "[]" "transfer"
    {[ "to" := JString "0xabc"; "amount" := JNumber 5 ]}
  = addNewTx tokenRuntime (gatewayOf acceptingWallet) "0xToken" "[]" "transfer"
      {[ "to" := JString "0xabc"; "amount" := JNumber 5; "memo" := JString "hi" ]}.
Proof.
  apply (addNewTx_ignores_other_keys tokenRuntime (gatewayOf acceptingWallet)
           "0xToken" "[]" "transfer").
  intros entries entry ins input [= <-] [= <-] [= <-] Hin.
  apply list_elem_of_In in Hin. simpl in Hin.
  destruct Hin as [<- | [<- | []]]; reflexivity.
Defined.

(** X16. Without a contract, [addNewTx] still builds the destination
    contract, parses the ABI and looks the method up; when these succeed it
    is rejected with the [TypeError] of calling [wait] on [undefined], and
    neither the encoder nor the arguments nor the library play a part. *)
Theorem addNewTx_without_contract (rt : Runtime) (g : Gateway)
    (destination abi method : string) (args : gmap string Value)
    (dc : DestinationContract) (entries : list Entry.t) (entry : Entry.t) :
  contract g = None ->
  newContract rt destination abi = Fulfilled dc ->
  JSON_parse rt abi = Fulfilled entries ->
  findFunction entries method = Some entry ->
  addNewTx rt g destination abi method args
  = Rejected (TypeError "Cannot read property 'wait' of undefined").
Proof.
  intros Hc Hn Hp Hf. unfold addNewTx, connected.
  by rewrite Hn, bind_Fulfilled, Hp, bind_Fulfilled, Hf, bind_Fulfilled, Hc.
Qed.

(** X16 at the token ABI, with a library but no contract. *)
Lemma addNewTx_without_contract_witness :
  addNewTx tokenRuntime
    {| contract := None; signerLibrary := Some {| getSigner := "0xSigner" |} |}
    "0xToken" "[]" "transfer" ∅
  = Rejected (TypeError "Cannot read property 'wait' of undefined").
Proof.
  apply (addNewTx_without_contract tokenRuntime
           {| contract := None; signerLibrary := Some {| getSigner := "0xSigner" |} |}
           "0xToken" "[]" "transfer" ∅
           {| destinationAddress := "0xToken";
              interface := {| encodeFunctionData := fun _ _ => Fulfilled "0xdata" |} |}
           tokenAbi transferFunction); reflexivity.
Defined.

(** ** The owner form, continued *)

Lemma upperChar_idempotent (c : ascii) : upperChar (upperChar c) = upperChar c.
Proof.
  destruct c as [[] [] [] [] [] [] [] []]; reflexivity.
Qed.

Lemma toUpperCase_idempotent (s : string) :
  toUpperCase (toUpperCase s) = toUpperCase s.
Proof.
  induction s as [|c s IH]; simpl; [done|].
  by rewrite upperChar_idempotent, IH.
Qed.

Lemma existsb_alreadyOwner (owners : list string) (candidate : string) :
  existsb (fun owner => String.eqb (toUpperCase owner) (toUpperCase candidate))
          owners = true
  <-> alreadyOwner owners candidate.
Proof.
  unfold alreadyOwner. rewrite existsb_exists. split.
  - intros (owner & Hin & Heq). exists owner.
    split; [by apply list_elem_of_In|]. by apply String.eqb_eq.
  - intros (owner & Hin & Heq). exists owner.
    split; [by apply list_elem_of_In|]. by apply String.eqb_eq.
Qed.

Lemma validate_no_error (isAddress : string -> bool) (owners : list string)
    (s : string) :
  OwnerModal.newOwnerAddress
    (OwnerModal.validate isAddress owners
       {| OwnerModal.values_newOwnerAddress := Some s |}) = None
  <-> s = "" \/ (isAddress s = true /\ ~ alreadyOwner owners s).
Proof.
  unfold OwnerModal.validate. cbn [OwnerModal.values_newOwnerAddress].
  destruct s as [|c s]; [simpl; split; [by left|done]|].
  change (OwnerModal.hasLength (Some (String c s))) with true.
  cbn [andb]. change (default "" (Some (String c s))) with (String c s).
  destruct (isAddress (String c s)); cbn [negb].
  - destruct (existsb _ owners) eqn:Hex; simpl.
    + apply existsb_alreadyOwner in Hex. split; [done|].
      intros [? | [_ Hno]]; [done|]. by destruct Hno.
    + split; [|done]. intros _. right. split; [done|].
      intros Hdup%existsb_alreadyOwner. congruence.
  - simpl. split; [done|]. by intros [? | [? _]].
Qed.

(** X17. With the errors that [validate] computes, [canSubmit] enables the
    submit button exactly when the candidate is not empty, is a valid
    address, and is no existing owner under upper-casing. *)
Theorem submit_enabled_iff (isAddress : string -> bool) (owners : list string)
    (s : string) :
  let values := {| OwnerModal.values_newOwnerAddress := Some s |} in
  exists v,
    OwnerModal.canSubmit values (OwnerModal.validate isAddress owners values)
    = Fulfilled v
    /\ (truthy v = true <->
        s <> "" /\ isAddress s = true /\ ~ alreadyOwner owners s).
Proof.
  intros values. unfold OwnerModal.canSubmit. simpl. eexists. split; [done|].
  rewrite truthy_and. simpl. rewrite andb_true_iff.
  unfold OwnerModal.errorCount.
  pose proof (validate_no_error isAddress owners s) as Hv. subst values.
  destruct (OwnerModal.newOwnerAddress _) as [msg|]; simpl.
  - split; [by intros [_ ?]|]. intros (Hne & Ha & Hn).
    assert (Some msg = None) as [=]. apply Hv. by right.
  - split.
    + intros [Hlen _]. destruct s; [done|].
      destruct (proj1 Hv eq_refl) as [? | [? ?]]; done.
    + intros (Hne & _). split; [|done]. by destruct s.
Qed.

(** X18. Duplicate detection does not depend on the letter case in which
    the owners are held: two owner lists that are equal once upper-cased
    give the same validation result. *)
Theorem validate_owner_case (isAddress : string -> bool)
    (owners owners' : list string) (values : OwnerModal.FormValues) :
  toUpperCase <$> owners = toUpperCase <$> owners' ->
  OwnerModal.validate isAddress owners values
  = OwnerModal.validate isAddress owners' values.
Proof.
  intros Heq. unfold OwnerModal.validate.
  assert (Hex : forall c,
    existsb (fun owner => String.eqb (toUpperCase owner) (toUpperCase c)) owners
    = existsb (fun owner => String.eqb (toUpperCase owner) (toUpperCase c)) owners').
  { intros c.
    transitivity (existsb (fun u => String.eqb u (toUpperCase c))
                    (toUpperCase <$> owners)).
    - clear Heq. induction owners as [|o os IH]; [done|].
      rewrite fmap_cons. cbn [existsb]. by rewrite IH.
    - rewrite Heq. clear Heq. induction owners' as [|o os IH]; [done|].
      rewrite fmap_cons. cbn [existsb]. by rewrite IH. }
  by rewrite Hex.
Qed.

(** X18 at the owners and the same owners in capitals. *)
Lemma validate_owner_case_witness :
  toUpperCase <$> someOwners = toUpperCase <$> (toUpperCase <$> someOwners)
  /\ OwnerModal.validate addressFormat someOwners
       {| OwnerModal.values_newOwnerAddress :=
            Some "0xde709f2102306220921060314715629080e2fb77" |}
     = OwnerModal.validate addressFormat (toUpperCase <$> someOwners)
         {| OwnerModal.values_newOwnerAddress :=
              Some "0xde709f2102306220921060314715629080e2fb77" |}.
Proof.
  split; [reflexivity|].
  apply (validate_owner_case addressFormat someOwners (toUpperCase <$> someOwners)).
  reflexivity.
Defined.

Lemma ownerCall_submitEncoded (m : OwnerModal.Modal)
    (values : OwnerModal.FormValues) :
  OwnerModal.ownerCall m values
  = OwnerModal.submitEncoded m (ownerMethod m) (ownerParams m values).
Proof.
  unfold OwnerModal.ownerCall, ownerMethod, ownerParams.
  by destruct (OwnerModal.addOrReplace m).
Qed.

(** X19. [sendTx] closes the modal exactly when the whole submission went
    through: a library is connected, the call data was encoded, the multisig
    accepted [submitTransaction(contract.address, 0, data)] and the wait gave
    a receipt; it then resolves to that receipt. In every other case the
    modal stays open and [sendTx] resolves to a form error. *)
Theorem sendTx_closes_modal_iff (m : OwnerModal.Modal)
    (values : OwnerModal.FormValues) :
  ((OwnerModal.sendTx m values).1 = true <->
   exists lib data tx receipt,
     OwnerModal.modalLibrary m = Some lib
     /\ OwnerModal.encode m (ownerMethod m) (ownerParams m values) = Fulfilled data
     /\ MultiSigWallet.submitTransaction
          (connect (OwnerModal.modalContract m) (getSigner lib))
          (contractAddress (OwnerModal.modalContract m)) 0 data = Fulfilled tx
     /\ wait tx = Fulfilled receipt
     /\ (OwnerModal.sendTx m values).2 = Fulfilled (OwnerModal.Submitted receipt))
  /\ ((OwnerModal.sendTx m values).1 = false ->
      exists msg,
        (OwnerModal.sendTx m values).2 = Fulfilled (OwnerModal.FormError msg)).
Proof.
  unfold OwnerModal.sendTx. rewrite ownerCall_submitEncoded.
  unfold OwnerModal.submitEncoded.
  destruct (OwnerModal.modalLibrary m) as [lib|]; simpl.
  - destruct (OwnerModal.encode m _ _) as [data|e] eqn:He; simpl.
    + destruct (MultiSigWallet.submitTransaction _ _ _ _) as [tx|e] eqn:Hs; simpl.
      * destruct (wait tx) as [receipt|e] eqn:Hw; simpl.
        -- split; [|done]. split; [|done]. intros _.
           exists lib, data, tx, receipt. by rewrite Hs.
        -- split; [|by eauto]. split; [done|].
           intros (? & ? & ? & ? & [= <-] & [= <-] & Hs' & Hw' & _).
           rewrite Hs in Hs'. injection Hs' as <-. congruence.
      * split; [|by eauto]. split; [done|].
        intros (? & ? & ? & ? & [= <-] & [= <-] & Hs' & _). congruence.
    + split; [|by eauto]. split; [done|].
      intros (? & ? & ? & ? & _ & [=] & _).
  - split; [|by eauto]. split; [done|]. by intros (? & ? & ? & ? & [=] & _).
Qed.

(** X20. Without a connected library [sendTx] makes no call at all: in
    either mode it leaves the modal open and resolves to the form error
    carrying the message of the [TypeError]. The same holds for an error of
    the encoder, whose message is passed on. *)
Theorem sendTx_fails_before_network (m : OwnerModal.Modal)
    (values : OwnerModal.FormValues) :
  (OwnerModal.modalLibrary m = None ->
   OwnerModal.sendTx m values
   = (false, Fulfilled (OwnerModal.FormError
                          "Cannot read property 'getSigner' of undefined")))
  /\ (forall lib e,
        OwnerModal.modalLibrary m = Some lib ->
        OwnerModal.encode m (ownerMethod m) (ownerParams m values) = Rejected e ->
        OwnerModal.sendTx m values
        = (false, Fulfilled (OwnerModal.FormError (message e)))).
Proof.
  unfold OwnerModal.sendTx. rewrite ownerCall_submitEncoded.
  unfold OwnerModal.submitEncoded. split.
  - by intros ->.
  - by intros lib e -> ->.
Qed.

(** X21. The early [return null] of the modal never happens: its condition
    asks for the mode string ['replace'] to be empty. So the form is shown
    in replace mode also when no owner to replace was given, and submitting
    it then encodes [replaceOwner(undefined, newOwner)]. *)
Theorem modal_never_returns_null (m : OwnerModal.Modal)
    (values : OwnerModal.FormValues) :
  OwnerModal.returnsNull m = false
  /\ (OwnerModal.addOrReplace m = OwnerModal.replace ->
      OwnerModal.ownerToBeReplaced m = None ->
      OwnerModal.ownerCall m values
      = OwnerModal.submitEncoded m "replaceOwner"
          [JUndefined;
           OwnerModal.ofString (OwnerModal.values_newOwnerAddress values)]).
Proof.
  split.
  - unfold OwnerModal.returnsNull. by destruct (OwnerModal.addOrReplace m).
  - intros Hmode Hnone. unfold OwnerModal.ownerCall. by rewrite Hmode, Hnone.
Qed.

(** ** The [Submission] listener *)

Lemma last_cons_default {A : Type} (a d : A) (l : list A) :
  List.last (a :: l) d = List.last l a.
Proof.
  revert a d. induction l as [|b l IH]; intros a d; [done|].
  change (List.last (a :: b :: l) d) with (List.last (b :: l) d).
  by rewrite !IH.
Qed.

Lemma mount_empty (d : Deps) :
  cleanup (mount d ∅) = subscribedTo d
  /\ listeners (mount d ∅)
     = match subscribedTo d with Some key => {[ key := 1%nat ]} | None => ∅ end.
Proof.
  unfold mount, submissionEffect, subscribedTo.
  destruct (depContract d) as [[i a]|], (depLibrary d) as [l|]; simpl; done.
Qed.

Lemma rerender_invariant (s : Subscription) (d : Deps) :
  cleanup s = subscribedTo (lastDeps s) ->
  listeners s = match cleanup s with Some key => {[ key := 1%nat ]} | None => ∅ end ->
  lastDeps (rerender s d) = d
  /\ cleanup (rerender s d) = subscribedTo d
  /\ listeners (rerender s d)
     = match subscribedTo d with Some key => {[ key := 1%nat ]} | None => ∅ end.
Proof.
  intros Hc Hl. unfold rerender. destruct (decide (d = lastDeps s)) as [-> | Hne].
  - split; [done|]. split; [done|]. by rewrite Hl, Hc.
  - assert (Hclean : submissionCleanup (cleanup s) (listeners s) = ∅).
    { rewrite Hl. destruct (cleanup s) as [key|]; simpl; [|done].
      by rewrite delete_singleton_eq. }
    rewrite Hclean. split; [done|]. apply mount_empty.
Qed.

(** X22. However often the provider re-renders with changed contract or
    library objects, the effect holds at most one [Submission] listener: one
    on the current library for the current contract's filter when both
    exist, none otherwise; listeners of earlier renders are gone, and
    unmounting removes the last one. *)
Theorem submission_listener_lifecycle (d : Deps) (ds : list Deps) :
  let s := subscriptionAfter d ds in
  lastDeps s = List.last ds d
  /\ listeners s
     = match subscribedTo (lastDeps s) with
       | Some key => {[ key := 1%nat ]}
       | None => ∅
       end
  /\ unmount s = ∅.
Proof.
  unfold subscriptionAfter.
  assert (H : forall s0 : Subscription,
    cleanup s0 = subscribedTo (lastDeps s0) ->
    listeners s0 = match cleanup s0 with
                   | Some key => {[ key := 1%nat ]} | None => ∅ end ->
    let s := fold_left rerender ds s0 in
    lastDeps s = List.last ds (lastDeps s0)
    /\ cleanup s = subscribedTo (lastDeps s)
    /\ listeners s = match cleanup s with
                     | Some key => {[ key := 1%nat ]} | None => ∅ end).
  { induction ds as [|d1 ds IH]; intros s0 Hc Hl; [done|].
    destruct (rerender_invariant s0 d1 Hc Hl) as (Hd & Hc1 & Hl1).
    destruct (IH (rerender s0 d1)) as (Hlast & Hc' & Hl').
    - by rewrite Hd.
    - by rewrite Hc1.
    - cbn [fold_left]. split; [|done].
      by rewrite Hlast, Hd, last_cons_default. }
  destruct (mount_empty d) as [Hc0 Hl0].
  destruct (H (mount d ∅)) as (Hlast & Hc & Hl).
  - done.
  - by rewrite Hl0, Hc0.
  - cbv zeta. split; [exact Hlast|]. split.
    + rewrite Hl. rewrite Hc. reflexivity.
    + unfold unmount. rewrite Hl.
      destruct (cleanup (fold_left rerender ds (mount d ∅))) as [key|];
        simpl; [|reflexivity].
      apply delete_singleton_eq.
Qed.
